(** * gitasay: a shallow embedding of [main.go]

    The program prints one verse of an embedded corpus, chosen at random or
    by chapter and verse number, wrapped to 70 columns.  This development
    embeds the text wrapper [wrapText] and the entry point [main] and proves
    the properties the specification states about them.

    Go strings are byte sequences: they are modelled by [string], whose
    characters are the bytes.  The functions of the Go standard library that
    the program calls ([utf8.DecodeRuneInString], [unicode.IsSpace],
    [strings.Fields], ...) are modelled from the library's documented
    behaviour, on bytes, including its treatment of invalid UTF-8. *)

From Stdlib Require Import ZArith List String Ascii Bool Lia.
From Stdlib Require Import Numbers.DecimalString.
From Equations Require Import Equations.
Import ListNotations.

Local Open Scope string_scope.
Local Open Scope Z_scope.

(* ===================================================================== *)
(** * Byte strings *)
(* ===================================================================== *)

Module Str.

(** The numeric value of a byte. *)
Definition byte (c : ascii) : Z := Z.of_N (N_of_ascii c).

(** [s[:n]] and [s[n:]] (clamped at the end of the string). *)
Fixpoint take (n : nat) (s : string) : string :=
  match n, s with
  | S k, String c s' => String c (take k s')
  | _, _ => EmptyString
  end.

Fixpoint drop (n : nat) (s : string) : string :=
  match n, s with
  | S k, String c s' => drop k s'
  | _, _ => s
  end.

(** Membership of a byte in a string. *)
Fixpoint mem (c : ascii) (s : string) : bool :=
  match s with
  | EmptyString => false
  | String d s' => Ascii.eqb c d || mem c s'
  end.

(** Concatenation of a list of strings. *)
Fixpoint cat (l : list string) : string :=
  match l with
  | [] => EmptyString
  | s :: l' => s ++ cat l'
  end.

Definition LF : ascii := ascii_of_nat 10.
Definition nl : string := String LF EmptyString.
Definition sp : string := " ".

End Str.

(* ===================================================================== *)
(** * Go's [int] *)
(* ===================================================================== *)

(** On the 64-bit platforms [int] has 64 bits: it holds the integers from
    [-2^63] to [2^63-1] and its arithmetic wraps around.  An [int] is
    modelled by the [Z] in this range. *)
Module int.

Definition wrap (z : Z) : Z := (z + 2 ^ 63) mod 2 ^ 64 - 2 ^ 63.

Definition add (a b : Z) : Z := wrap (a + b).

End int.

(* ===================================================================== *)
(** * The Go standard library, as far as the program uses it *)
(* ===================================================================== *)

(** ** unicode/utf8 *)

Module utf8.

Definition RuneError : Z := 0xFFFD.
Definition RuneSelf : Z := 0x80.

Definition locb : Z := 0x80.
Definition hicb : Z := 0xBF.

Definition xx : Z := 0xF1.
Definition as_ : Z := 0xF0.
Definition s1 : Z := 0x02.
Definition s2 : Z := 0x13.
Definition s3 : Z := 0x03.
Definition s4 : Z := 0x23.
Definition s5 : Z := 0x34.
Definition s6 : Z := 0x04.
Definition s7 : Z := 0x44.

(** The table [first]: information about the first byte of an encoding. *)
Definition first (b : Z) : Z :=
  if b <? 0x80 then as_
  else if b <? 0xC2 then xx
  else if b <? 0xE0 then s1
  else if b =? 0xE0 then s2
  else if b <? 0xED then s3
  else if b =? 0xED then s4
  else if b <? 0xF0 then s3
  else if b =? 0xF0 then s5
  else if b <? 0xF4 then s6
  else if b =? 0xF4 then s7
  else xx.

(** The table [acceptRanges]: the range allowed for the second byte. *)
Definition acceptRanges (i : Z) : Z * Z :=
  if i =? 0 then (locb, hicb)
  else if i =? 1 then (0xA0, hicb)
  else if i =? 2 then (locb, 0x9F)
  else if i =? 3 then (0x90, hicb)
  else if i =? 4 then (locb, 0x8F)
  else (0, 0).

Definition maskx : Z := 0x3F.
Definition mask2 : Z := 0x1F.
Definition mask3 : Z := 0x0F.
Definition mask4 : Z := 0x07.

(** [DecodeRuneInString s]: the first rune of [s] and its width in bytes;
    [(RuneError, 0)] for the empty string and [(RuneError, 1)] for an
    invalid or short encoding. *)
Definition DecodeRuneInString (s : string) : Z * nat :=
  match s with
  | EmptyString => (RuneError, 0%nat)
  | String c0 t0 =>
    let b0 := Str.byte c0 in
    let x := first b0 in
    if as_ <=? x then
      ((if Z.testbit x 0 then RuneError else b0), 1%nat)
    else
      let sz := Z.to_nat (Z.land x 7) in
      let '(lo, hi) := acceptRanges (Z.shiftr x 4) in
      if (String.length s <? sz)%nat then (RuneError, 1%nat)
      else
        match t0 with
        | EmptyString => (RuneError, 1%nat)
        | String c1 t1 =>
          let b1 := Str.byte c1 in
          if (b1 <? lo) || (hi <? b1) then (RuneError, 1%nat)
          else if (sz <=? 2)%nat then
            (Z.lor (Z.shiftl (Z.land b0 mask2) 6) (Z.land b1 maskx), 2%nat)
          else
            match t1 with
            | EmptyString => (RuneError, 1%nat)
            | String c2 t2 =>
              let b2 := Str.byte c2 in
              if (b2 <? locb) || (hicb <? b2) then (RuneError, 1%nat)
              else if (sz <=? 3)%nat then
                (Z.lor (Z.lor (Z.shiftl (Z.land b0 mask3) 12)
                              (Z.shiftl (Z.land b1 maskx) 6))
                       (Z.land b2 maskx), 3%nat)
              else
                match t2 with
                | EmptyString => (RuneError, 1%nat)
                | String c3 _ =>
                  let b3 := Str.byte c3 in
                  if (b3 <? locb) || (hicb <? b3) then (RuneError, 1%nat)
                  else
                    (Z.lor (Z.lor (Z.lor (Z.shiftl (Z.land b0 mask4) 18)
                                         (Z.shiftl (Z.land b1 maskx) 12))
                                  (Z.shiftl (Z.land b2 maskx) 6))
                           (Z.land b3 maskx), 4%nat)
                end
            end
        end
  end.

End utf8.

(** ** unicode *)

Module unicode.

Definition MaxLatin1 : Z := 0xFF.

(** The ranges of the [White_Space] property above Latin-1. *)
Definition White_Space : list (Z * Z) :=
  [ (0x1680, 0x1680); (0x2000, 0x200a); (0x2028, 0x2029);
    (0x202f, 0x202f); (0x205f, 0x205f); (0x3000, 0x3000) ].

Definition in_ranges (r : Z) (t : list (Z * Z)) : bool :=
  existsb (fun p => (fst p <=? r) && (r <=? snd p)) t.

(** [IsSpace r]: in Latin-1 the spaces are tab, LF, VT, FF, CR, space,
    U+0085 and U+00A0; elsewhere the [White_Space] property decides. *)
Definition IsSpace (r : Z) : bool :=
  if (0 <=? r) && (r <=? MaxLatin1) then
    (r =? 9) || (r =? 10) || (r =? 11) || (r =? 12) || (r =? 13) ||
    (r =? 32) || (r =? 0x85) || (r =? 0xA0)
  else in_ranges r White_Space.

End unicode.

(** ** Ranging over a string *)

(** [for _, r := range s]: the runes of [s] in order, each with the bytes
    that encode it.  An iteration consumes the width that
    [DecodeRuneInString] reports, which is at least one byte. *)
Equations? range_string (s : string) : list (Z * string)
  by wf (String.length s) lt :=
range_string EmptyString := [];
range_string (String c t) :=
  let d := utf8.DecodeRuneInString (String c t) in
  (fst d, Str.take (snd d) (String c t)) :: range_string (Str.drop (snd d - 1) t).
Proof.
  clear; generalize (n - 1)%nat; intros k; revert t.
  induction k as [|k IH]; intros [|c t]; simpl; try lia.
  specialize (IH t); lia.
Qed.

(** [utf8.RuneCountInString]: the number of runes; erroneous and short
    encodings count as single runes of width one byte.  (The count is at
    most the length of the string, which is an [int].) *)
Definition RuneCountInString (s : string) : Z :=
  Z.of_nat (List.length (range_string s)).

(** ** strings *)

Module strings.

(** [FieldsFunc]: the loop over the runes of the string.  [start] is the
    field being read ([None] where the Go code has [start < 0]); a space
    closes it, any other rune opens or extends it, and the end of the
    string closes the last one. *)
Fixpoint spans (f : Z -> bool) (rs : list (Z * string))
         (start : option string) : list string :=
  match rs with
  | [] =>
    match start with
    | Some w => [w]
    | None => []
    end
  | (r, bs) :: rs' =>
    if f r then
      match start with
      | Some w => w :: spans f rs' None
      | None => spans f rs' None
      end
    else
      match start with
      | Some w => spans f rs' (Some (w ++ bs))
      | None => spans f rs' (Some bs)
      end
  end.

Definition FieldsFunc (s : string) (f : Z -> bool) : list string :=
  spans f (range_string s) None.

(** [Fields s]: [s] split around each run of white space as defined by
    [unicode.IsSpace]; the empty list if [s] has only white space.  (The
    ASCII fast path of the library computes the same fields.) *)
Definition Fields (s : string) : list string :=
  FieldsFunc s unicode.IsSpace.

(** [ContainsAny s chars], for a set [chars] of ASCII characters: some
    byte of [s] is in [chars].  (A byte below 0x80 never occurs inside a
    multi-byte encoding.) *)
Fixpoint ContainsAny (s chars : string) : bool :=
  match s with
  | EmptyString => false
  | String c s' => Str.mem c chars || ContainsAny s' chars
  end.

(** [HasPrefix s p]: [s] begins with [p]. *)
Definition HasPrefix (s p : string) : bool := String.prefix p s.

(** [Split s sep] for a non-empty separator: the pieces of [s] between the
    occurrences of [sep], found from left to right without overlap.
    [skip] counts the bytes of an occurrence still to pass over and [cur]
    is the piece being read. *)
Fixpoint split_from (sep : string) (skip : nat) (s cur : string)
  : list string :=
  match s with
  | EmptyString => [cur]
  | String c s' =>
    match skip with
    | S k => split_from sep k s' cur
    | O =>
      if String.prefix sep s
      then cur :: split_from sep (String.length sep - 1) s' EmptyString
      else split_from sep 0 s' (cur ++ String c EmptyString)
    end
  end.

Definition Split (s sep : string) : list string :=
  split_from sep 0 s EmptyString.

(** [TrimSpace s]: [s] without its leading and trailing white space. *)
Fixpoint trim_left (rs : list (Z * string)) : list (Z * string) :=
  match rs with
  | (r, bs) :: rs' => if unicode.IsSpace r then trim_left rs' else rs
  | [] => []
  end.

Definition TrimSpace (s : string) : string :=
  Str.cat (map snd (rev (trim_left (rev (trim_left (range_string s)))))).

End strings.

(* ===================================================================== *)
(** * The text wrapper *)
(* ===================================================================== *)

Definition displayWidth : Z := 70.

(** The [strings.Builder] of [wrapText] is modelled by the log of its
    [WriteString] calls, each labelled with the place of the call in the
    loop body; [String()] concatenates what was written. *)
Inductive write : Type :=
| WidthBreak                (* the line break written before a word that does not fit *)
| Space                     (* the separator written before a word on a line in progress *)
| Word (w : string)         (* the word *)
| SentenceBreak.            (* the line break written after a word with a sentence mark *)

Definition written (x : write) : string :=
  match x with
  | WidthBreak => Str.nl
  | Space => Str.sp
  | Word w => w
  | SentenceBreak => Str.nl
  end.

Module Builder.
Definition t : Type := list write.
Definition WriteString (b : t) (x : write) : t := (b ++ [x])%list.
Definition String_ (b : t) : string := Str.cat (map written b).
End Builder.

(** The variables of [wrapText] that the loop updates. *)
Record wrap_state : Type := mk_wrap_state {
  result : Builder.t;
  current : Z
}.

(** The condition of the second [if] of the loop body: [word] is not the
    last word, it contains one of [.!?], and the word after it starts
    neither with [)] nor with a comma. *)
Definition sentence_end (word : string) (rest : list string) : bool :=
  match rest with
  | [] => false
  | next :: _ =>
    strings.ContainsAny word ".!?" &&
    negb (strings.HasPrefix next ")") &&
    negb (strings.HasPrefix next ",")
  end.

(** One iteration of the loop, for [word] at index [i] with [rest] the
    words after it ([i < len(words)-1] exactly when [rest] is not empty,
    and then [words[i+1]] is its head). *)
Definition wrap_iter (st : wrap_state) (word : string) (rest : list string)
  : wrap_state :=
  let wordLen := RuneCountInString word in
  let st :=
    if (displayWidth <? int.add (int.add (current st) wordLen) 1)
       && (0 <? current st)
    then mk_wrap_state (Builder.WriteString (result st) WidthBreak) 0
    else st in
  let st :=
    if 0 <? current st
    then mk_wrap_state (Builder.WriteString (result st) Space)
                       (int.add (current st) 1)
    else st in
  let st :=
    mk_wrap_state (Builder.WriteString (result st) (Word word))
                  (int.add (current st) wordLen) in
  if sentence_end word rest
  then mk_wrap_state (Builder.WriteString (result st) SentenceBreak) 0
  else st.

Fixpoint wrap_loop (words : list string) (st : wrap_state) : wrap_state :=
  match words with
  | [] => st
  | word :: rest => wrap_loop rest (wrap_iter st word rest)
  end.

(** The writes of [wrapText], and the string it returns. *)
Definition wrap_log (text : string) : Builder.t :=
  result (wrap_loop (strings.Fields text) (mk_wrap_state [] 0)).

Definition wrapText (text : string) : string :=
  Builder.String_ (wrap_log text).

(* ===================================================================== *)
(** * The data model *)
(* ===================================================================== *)

(** The numbers of the dataset and of the flags are [int]s, modelled by
    [Z]: the program compares and prints them and does no arithmetic on
    them. *)

(** The anonymous structs [{En, Hi}] of [Chapter]. *)
Module Lang.
Record t : Type := mk { En : string; Hi : string }.
End Lang.

Module Chapter.
Record t : Type := mk {
  ChapterNumber : Z;
  VersesCount : Z;
  Name : string;
  Translation : string;
  Transliteration : string;
  Meaning : Lang.t;
  Summary : Lang.t
}.
End Chapter.

(** The anonymous structs of the translators in [Sloka]. *)
Module TejT.
Record t : Type := mk { Author : string; Ht : string }.
End TejT.

Module SivaT.
Record t : Type := mk { Author : string; Et : string; Ec : string }.
End SivaT.

Module ChinmayT.
Record t : Type := mk { Author : string; Hc : string }.
End ChinmayT.

(** [Purohit], [San] and [Adi] have the same struct type. *)
Module EtT.
Record t : Type := mk { Author : string; Et : string }.
End EtT.

Module Sloka.
Record t : Type := mk {
  ID : string;
  Chapter : Z;
  Verse : Z;
  Slok : string;
  Transliteration : string;
  Tej : TejT.t;
  Siva : SivaT.t;
  Purohit : EtT.t;
  Chinmay : ChinmayT.t;
  San : EtT.t;
  Adi : EtT.t
}.

(** The zero value, which [var selectedSloka Sloka] holds. *)
Definition zero : t :=
  mk "" 0 0 "" "" (TejT.mk "" "") (SivaT.mk "" "" "") (EtT.mk "" "")
     (ChinmayT.mk "" "") (EtT.mk "" "") (EtT.mk "" "").
End Sloka.

Record AllSlokas : Type := mk_AllSlokas {
  Chapters : list Chapter.t;
  Slokas : list Sloka.t
}.

(** Translator constants *)
Definition Siva : string := "siva".
Definition Purohit : string := "purohit".
Definition Adi : string := "adi".
Definition San : string := "san".
Definition Tej : string := "tej".
Definition Chinmay : string := "chinmay".

(** ANSI styling *)
Definition ESC : ascii := ascii_of_nat 27.
Definition Bold : string := String ESC "[1m".
Definition Dim : string := String ESC "[2m".
Definition Reset : string := String ESC "[0m".

(* ===================================================================== *)
(** * Runs of the program *)
(* ===================================================================== *)

(** What a run does that can be seen from outside, in order. *)
Inductive event : Type :=
| Stdout (s : string)            (* bytes written to the standard output *)
| Stderr (s : string)            (* bytes written to the standard error *)
| ReadEmbedded (name : string)   (* [gitaFS.ReadFile(name)] *)
| Unmarshal (data : string)      (* [json.Unmarshal(data, &allSlokas)] *)
| Seed                           (* [rand.Seed(time.Now().UnixNano())] *)
| Intn (n : Z).                  (* [rand.Intn(n)] *)

(** How a computation ends: with a value, by [os.Exit], or by a panic of
    the runtime. *)
Inductive outcome (A : Type) : Type :=
| Done (a : A)
| Exited (code : Z)
| Panicked.
Arguments Done {A} a.
Arguments Exited {A} code.
Arguments Panicked {A}.

(** A computation: the events it causes and how it ends. *)
Definition IO (A : Type) : Type := (list event * outcome A)%type.

Definition ret {A : Type} (a : A) : IO A := ([], Done a).

Definition bind {A B : Type} (m : IO A) (k : A -> IO B) : IO B :=
  match m with
  | (t, Done a) => let '(t', o) := k a in ((t ++ t')%list, o)
  | (t, Exited c) => (t, Exited c)
  | (t, Panicked) => (t, Panicked)
  end.

Notation "x <- m ;; k" := (bind m (fun x => k))
  (at level 61, m at next level, right associativity).
Notation "m ;; k" := (bind m (fun _ => k))
  (at level 61, right associativity).

Definition event_ (e : event) : IO unit := ([e], Done tt).

Definition when (b : bool) (m : IO unit) : IO unit :=
  if b then m else ret tt.

(** What the run wrote to each stream, and the exit status of the process:
    0 when [main] returns, 2 after a panic. *)
Fixpoint stdout_of (t : list event) : string :=
  match t with
  | [] => EmptyString
  | Stdout s :: t' => s ++ stdout_of t'
  | _ :: t' => stdout_of t'
  end.

Fixpoint stderr_of (t : list event) : string :=
  match t with
  | [] => EmptyString
  | Stderr s :: t' => s ++ stderr_of t'
  | _ :: t' => stderr_of t'
  end.

Definition stdout {A : Type} (r : IO A) : string := stdout_of (fst r).
Definition stderr {A : Type} (r : IO A) : string := stderr_of (fst r).

Definition exit_code {A : Type} (r : IO A) : Z :=
  match snd r with
  | Done _ => 0
  | Exited c => c
  | Panicked => 2
  end.

(** What a run depends on besides the command line: the embedded file
    system, the JSON decoder, and the random source as seeded from the
    clock of this run.  An [error] is modelled by its message. *)
Record World : Type := mk_World {
  gitaFS : string -> string + string;
  decode_json : string -> AllSlokas + string;
  random : Z -> Z
}.

(** [rand.Intn(n)] returns a number in [[0, n)] for every [n > 0]. *)
Definition Intn_contract (w : World) : Prop :=
  forall n, 0 < n -> 0 <= random w n < n.

(** The flags given on the command line, as [flag.Parse] read them. *)
Record CommandLine : Type := mk_CommandLine {
  arg_translation : option string;
  arg_chapter_info : option bool;
  arg_c : option Z;
  arg_v : option Z
}.

Module flag.
(** The value of a flag: the one given, or else the default. *)
Definition value {A : Type} (given : option A) (default : A) : A :=
  match given with
  | Some a => a
  | None => default
  end.
Definition String_ (given : option string) (default : string) := value given default.
Definition Bool (given : option bool) (default : bool) := value given default.
Definition Int (given : option Z) (default : Z) := value given default.
End flag.

Module fmt.

(** An operand of [Printf]. *)
Inductive arg : Type :=
| Str_ (s : string)
| Int_ (z : Z)
| Err_ (msg : string).

(** [%d] of an [int]: the decimal numeral, with a sign if negative. *)
Definition itoa (z : Z) : string := NilZero.string_of_int (Z.to_int z).

(** The verbs that the format strings of the program use: [%s] of a
    string, [%d] of an int and [%v] of an error. *)
Definition verb (v : ascii) (a : arg) : string :=
  match a with
  | Str_ s => if Ascii.eqb v "s" then s else "%!" ++ String v "(string=" ++ s ++ ")"
  | Int_ z => if Ascii.eqb v "d" then itoa z else "%!" ++ String v "(int=" ++ itoa z ++ ")"
  | Err_ msg => msg
  end.

Fixpoint Sprintf (format : string) (args : list arg) : string :=
  match format with
  | EmptyString => EmptyString
  | String "%" (String v rest) =>
    match args with
    | a :: args' => verb v a ++ Sprintf rest args'
    | [] => "%!" ++ String v "(MISSING)" ++ Sprintf rest []
    end
  | String c rest => String c (Sprintf rest args)
  end.

Definition Printf (format : string) (args : list arg) : IO unit :=
  event_ (Stdout (Sprintf format args)).

(** [Println(s)], and [Println()] for the empty [s]. *)
Definition Println (s : string) : IO unit :=
  event_ (Stdout (s ++ Str.nl)).

End fmt.

Module os.
Definition Exit {A : Type} (code : Z) : IO A := ([], Exited code).
End os.

Module rand.
Definition Seed : IO unit := event_ Seed.
Definition Intn (w : World) (n : Z) : IO Z := ([Intn n], Done (random w n)).
End rand.

Definition ReadFile (w : World) (name : string) : IO (string + string) :=
  ([ReadEmbedded name], Done (gitaFS w name)).

Definition json_Unmarshal (w : World) (data : string)
  : IO (AllSlokas + string) :=
  ([Unmarshal data], Done (decode_json w data)).

(** [l[i]]: the element at index [i], or a panic of the runtime when [i]
    is outside the bounds of the slice (the report of the panic goes to the
    standard error; the stack dump that follows it is left out). *)
Definition index {A : Type} (l : list A) (i : Z) : IO A :=
  match (if i <? 0 then None else nth_error l (Z.to_nat i)) with
  | Some a => ret a
  | None =>
    ([Stderr ("panic: runtime error: index out of range [" ++ fmt.itoa i
              ++ "] with length " ++ fmt.itoa (Z.of_nat (List.length l))
              ++ Str.nl)],
     Panicked)
  end.

(* ===================================================================== *)
(** * The entry point *)
(* ===================================================================== *)

Definition validSources : list string := [Siva; Purohit; Adi; San; Tej; Chinmay].

(** The loop that validates the translation source. *)
Fixpoint valid_source (translationSource : string) (sources : list string)
  : bool :=
  match sources with
  | [] => false
  | source :: rest =>
    if String.eqb translationSource source then true
    else valid_source translationSource rest
  end.

Definition validate (translationSource : string) : IO unit :=
  let validSource := valid_source translationSource validSources in
  when (negb validSource)
       (fmt.Printf ("Invalid translation source: %s" ++ Str.nl)
                   [fmt.Str_ translationSource];;
        fmt.Println "Valid sources: siva, purohit, adi, san, tej, chinmay";;
        os.Exit 1).

(** Read the embedded JSON file and parse it into structs. *)
Definition load (w : World) : IO AllSlokas :=
  r <- ReadFile w "gita.json";;
  match r with
  | inr err =>
    fmt.Printf ("Error reading embedded data: %v" ++ Str.nl) [fmt.Err_ err];;
    os.Exit 1
  | inl data =>
    r <- json_Unmarshal w data;;
    match r with
    | inr err =>
      fmt.Printf ("Error parsing JSON: %v" ++ Str.nl) [fmt.Err_ err];;
      os.Exit 1
    | inl allSlokas => ret allSlokas
    end
  end.

(** The search loop: [selectedSloka] and [found] after it. *)
Fixpoint search (slokas : list Sloka.t) (chapterFlag verseFlag : Z)
         (selectedSloka : Sloka.t) (found : bool) : Sloka.t * bool :=
  match slokas with
  | [] => (selectedSloka, found)
  | sloka :: rest =>
    if (Sloka.Chapter sloka =? chapterFlag) && (Sloka.Verse sloka =? verseFlag)
    then (sloka, true)
    else search rest chapterFlag verseFlag selectedSloka found
  end.

Definition select (w : World) (chapterFlag verseFlag : Z)
           (allSlokas : AllSlokas) : IO Sloka.t :=
  if (0 <? chapterFlag) && (0 <? verseFlag) then
    let '(selectedSloka, found) :=
      search (Slokas allSlokas) chapterFlag verseFlag Sloka.zero false in
    when (negb found)
         (fmt.Printf ("Chapter %d, Verse %d not found." ++ Str.nl)
                     [fmt.Int_ chapterFlag; fmt.Int_ verseFlag];;
          os.Exit 1);;
    ret selectedSloka
  else
    rand.Seed;;
    when (Z.of_nat (List.length (Slokas allSlokas)) =? 0)
         (fmt.Println "No slokas found in the JSON data.";;
          os.Exit 1);;
    i <- rand.Intn w (Z.of_nat (List.length (Slokas allSlokas)));;
    index (Slokas allSlokas) i.

(** Show chapter info: the loop over the chapters. *)
Fixpoint chapter_info (chapters : list Chapter.t) (selectedSloka : Sloka.t)
  : IO unit :=
  match chapters with
  | [] => ret tt
  | chapter :: rest =>
    if Chapter.ChapterNumber chapter =? Sloka.Chapter selectedSloka then
      fmt.Printf ("%sChapter %d: %s%s" ++ Str.nl)
                 [fmt.Str_ Bold; fmt.Int_ (Chapter.ChapterNumber chapter);
                  fmt.Str_ (Chapter.Name chapter); fmt.Str_ Reset];;
      when (negb (String.eqb (Chapter.Translation chapter) ""))
           (fmt.Printf ("(%s)" ++ Str.nl)
                       [fmt.Str_ (Chapter.Translation chapter)]);;
      when (negb (String.eqb (Lang.En (Chapter.Meaning chapter)) ""))
           (fmt.Println
              (wrapText ("Meaning: " ++ Lang.En (Chapter.Meaning chapter))));;
      fmt.Println ""
    else chapter_info rest selectedSloka
  end.

(** Display chapter and verse header. *)
Definition header (selectedSloka : Sloka.t) : IO unit :=
  fmt.Printf ("%sChapter %d, Verse %d%s" ++ Str.nl ++ Str.nl)
             [fmt.Str_ Bold; fmt.Int_ (Sloka.Chapter selectedSloka);
              fmt.Int_ (Sloka.Verse selectedSloka); fmt.Str_ Reset].

(** The loops over the Sanskrit lines and over the transliteration. *)
Fixpoint print_lines (lines : list string) : IO unit :=
  match lines with
  | [] => ret tt
  | line :: rest =>
    when (negb (String.eqb (strings.TrimSpace line) ""))
         (fmt.Println (wrapText (strings.TrimSpace line)));;
    print_lines rest
  end.

(** Pick translation text and author. *)
Definition pick (translationSource : string) (selectedSloka : Sloka.t)
  : string * string :=
  if String.eqb translationSource Siva then
    (SivaT.Et (Sloka.Siva selectedSloka),
     SivaT.Author (Sloka.Siva selectedSloka))
  else if String.eqb translationSource Purohit then
    (EtT.Et (Sloka.Purohit selectedSloka),
     EtT.Author (Sloka.Purohit selectedSloka))
  else if String.eqb translationSource Adi then
    (EtT.Et (Sloka.Adi selectedSloka),
     EtT.Author (Sloka.Adi selectedSloka))
  else if String.eqb translationSource San then
    (EtT.Et (Sloka.San selectedSloka),
     EtT.Author (Sloka.San selectedSloka))
  else if String.eqb translationSource Tej then
    (TejT.Ht (Sloka.Tej selectedSloka),
     TejT.Author (Sloka.Tej selectedSloka))
  else if String.eqb translationSource Chinmay then
    (ChinmayT.Hc (Sloka.Chinmay selectedSloka),
     ChinmayT.Author (Sloka.Chinmay selectedSloka))
  else ("", "").

(** The translation and the byline, as the last block prints them. *)
Definition print_translation (translationText author : string) : IO unit :=
  fmt.Println (wrapText translationText);;
  fmt.Printf ("%s(%s)%s" ++ Str.nl) [fmt.Str_ Dim; fmt.Str_ author; fmt.Str_ Reset].

(** Everything [main] prints once the verse is selected. *)
Definition present (translationSource : string) (includeChapter : bool)
           (allSlokas : AllSlokas) (selectedSloka : Sloka.t) : IO unit :=
  fmt.Println "";;
  when includeChapter (chapter_info (Chapters allSlokas) selectedSloka);;
  header selectedSloka;;
  print_lines (strings.Split (Sloka.Slok selectedSloka) Str.nl);;
  fmt.Println "";;
  print_lines (strings.Split (Sloka.Transliteration selectedSloka) ".");;
  fmt.Println "";;
  let '(translationText, author) := pick translationSource selectedSloka in
  print_translation translationText author;;
  fmt.Println "".

Definition main (cl : CommandLine) (w : World) : IO unit :=
  let translationSource := flag.String_ (arg_translation cl) "siva" in
  let includeChapter := flag.Bool (arg_chapter_info cl) false in
  let chapterFlag := flag.Int (arg_c cl) 0 in
  let verseFlag := flag.Int (arg_v cl) 0 in
  validate translationSource;;
  allSlokas <- load w;;
  selectedSloka <- select w chapterFlag verseFlag allSlokas;;
  present translationSource includeChapter allSlokas selectedSloka.

(* ===================================================================== *)
(** * The vocabulary of the specification *)
(* ===================================================================== *)

(** ** UTF-8 *)

(** A continuation byte: [10xxxxxx]. *)
Definition is_cont (c : ascii) : bool :=
  (utf8.locb <=? Str.byte c) && (Str.byte c <=? utf8.hicb).

(** The string is empty or starts with a byte that begins a rune. *)
Definition starts_rune (s : string) : Prop :=
  match s with
  | EmptyString => True
  | String c _ => is_cont c = false
  end.

Fixpoint all_cont (s : string) : bool :=
  match s with
  | EmptyString => true
  | String c s' => is_cont c && all_cont s'
  end.

(** The decoder on a first byte that announces [sz] bytes. *)
Definition decode_multi (sz : nat) (lo hi : Z) (c0 : ascii) (t0 : string)
  : Z * nat :=
  let b0 := Str.byte c0 in
  if (S (String.length t0) <? sz)%nat then (utf8.RuneError, 1%nat)
  else
    match t0 with
    | EmptyString => (utf8.RuneError, 1%nat)
    | String c1 t1 =>
      let b1 := Str.byte c1 in
      if (b1 <? lo) || (hi <? b1) then (utf8.RuneError, 1%nat)
      else if (sz <=? 2)%nat then
        (Z.lor (Z.shiftl (Z.land b0 utf8.mask2) 6) (Z.land b1 utf8.maskx), 2%nat)
      else
        match t1 with
        | EmptyString => (utf8.RuneError, 1%nat)
        | String c2 t2 =>
          let b2 := Str.byte c2 in
          if (b2 <? utf8.locb) || (utf8.hicb <? b2) then (utf8.RuneError, 1%nat)
          else if (sz <=? 3)%nat then
            (Z.lor (Z.lor (Z.shiftl (Z.land b0 utf8.mask3) 12)
                          (Z.shiftl (Z.land b1 utf8.maskx) 6))
                   (Z.land b2 utf8.maskx), 3%nat)
          else
            match t2 with
            | EmptyString => (utf8.RuneError, 1%nat)
            | String c3 _ =>
              let b3 := Str.byte c3 in
              if (b3 <? utf8.locb) || (utf8.hicb <? b3) then (utf8.RuneError, 1%nat)
              else
                (Z.lor (Z.lor (Z.lor (Z.shiftl (Z.land b0 utf8.mask4) 18)
                                     (Z.shiftl (Z.land b1 utf8.maskx) 12))
                              (Z.shiftl (Z.land b2 utf8.maskx) 6))
                       (Z.land b3 utf8.maskx), 4%nat)
            end
        end
    end.

(** ** Runes and fields *)

Definition nonspace (p : Z * string) : bool := negb (unicode.IsSpace (fst p)).

(** A token: a non-empty string all of whose runes are not spaces. *)
Definition token (w : string) : Prop :=
  w <> EmptyString /\ forallb nonspace (range_string w) = true.

(** A byte below [RuneSelf] that is a space. *)
Definition ascii_space (c : ascii) : Prop :=
  Str.byte c < utf8.RuneSelf /\ unicode.IsSpace (Str.byte c) = true.

(** A list of encoded runes that is the decoding of its own bytes. *)
Definition walk (rs : list (Z * string)) : Prop :=
  range_string (Str.cat (map snd rs)) = rs.

Definition chunk_ok (p : Z * string) : Prop :=
  exists c cs, snd p = String c cs /\ all_cont cs = true /\
               (Str.byte c < utf8.RuneSelf -> fst p = Str.byte c) /\
               (is_cont c = true -> fst p = utf8.RuneError).

(** The field being read after the runes [pre], none of them a space. *)
Definition start_of (pre : list (Z * string)) : option string :=
  match pre with
  | [] => None
  | _ => Some (Str.cat (map snd pre))
  end.

(** ** The text wrapper *)

(** A string that a 64-bit machine can hold: fewer than [2^62] bytes.  On
    such strings the counter [current] of [wrapText] never wraps around. *)
Definition addressable (text : string) : Prop :=
  Z.of_nat (String.length text) < 2 ^ 62.

(** The writes of the loop from a given value of [current], as a function
    of the words still to come, when no addition wraps around. *)
Fixpoint emit (words : list string) (cur : Z) : list write :=
  match words with
  | [] => []
  | word :: rest =>
    let wordLen := RuneCountInString word in
    let brk := (displayWidth <? cur + wordLen + 1) && (0 <? cur) in
    let cur1 := if brk then 0 else cur in
    let spc := 0 <? cur1 in
    let cur2 := if spc then cur1 + 1 else cur1 in
    ((if brk then [WidthBreak] else []) ++
     (if spc then [Space] else []) ++
     Word word ::
     (if sentence_end word rest
      then SentenceBreak :: emit rest 0
      else emit rest (cur2 + wordLen)))%list
  end.

(** What follows a word in the log. *)
Definition after (word : string) (rest : list string) (cur : Z) : list write :=
  if sentence_end word rest
  then SentenceBreak :: emit rest 0
  else emit rest cur.

(** The write that immediately follows the [i]-th word of a log. *)
Fixpoint after_word (i : nat) (log : list write) : option write :=
  match log with
  | [] => None
  | Word _ :: log' =>
    match i with
    | O => hd_error log'
    | S j => after_word j log'
    end
  | _ :: log' => after_word i log'
  end.

(** Tokens joined by separators, one between each two. *)
Fixpoint weave (ws seps : list string) : string :=
  match ws with
  | [] => EmptyString
  | w :: ws' =>
    match ws', seps with
    | _ :: _, s :: seps' => w ++ s ++ weave ws' seps'
    | _, _ => w
    end
  end.

Definition separator (s : string) : Prop := s = Str.sp \/ s = Str.nl.

(** The word contains one of the marks [.!?]. *)
Definition contains_mark (w : string) : bool := strings.ContainsAny w ".!?".

(** The word ends in one of the marks [.!?]. *)
Fixpoint ends_in_mark (w : string) : bool :=
  match w with
  | EmptyString => false
  | String c EmptyString => Str.mem c ".!?"
  | String _ w' => ends_in_mark w'
  end.

(** The word at index [i] has a mark, in the sense of [has_mark], and the
    word after it starts neither with [)] nor with a comma. *)
Definition sentence_at (has_mark : string -> bool) (words : list string)
           (i : nat) : Prop :=
  exists w next,
    nth_error words i = Some w /\ nth_error words (S i) = Some next /\
    has_mark w = true /\
    strings.HasPrefix next ")" = false /\ strings.HasPrefix next "," = false.

(** The sentence-boundary rule: the write that follows a word is the
    sentence break exactly at the words that [sentence_at] describes. *)
Definition sentence_rule (has_mark : string -> bool) : Prop :=
  forall (text : string) (i : nat),
    addressable text ->
    (after_word i (wrap_log text) = Some SentenceBreak <->
     sentence_at has_mark (strings.Fields text) i).

(** The lines of a text. *)
Definition lines (s : string) : list string := strings.Split s Str.nl.

Fixpoint last_byte (s : string) : option ascii :=
  match s with
  | EmptyString => None
  | String c EmptyString => Some c
  | String _ s' => last_byte s'
  end.

(** ** The entry point *)

(** The flags as [main] reads them. *)
Definition translation_of (cl : CommandLine) : string :=
  flag.String_ (arg_translation cl) "siva".
Definition chapter_info_of (cl : CommandLine) : bool :=
  flag.Bool (arg_chapter_info cl) false.
Definition c_of (cl : CommandLine) : Z := flag.Int (arg_c cl) 0.
Definition v_of (cl : CommandLine) : Z := flag.Int (arg_v cl) 0.

(** A command line with some of its flags replaced. *)
Definition with_translation (cl : CommandLine) (t : option string) : CommandLine :=
  mk_CommandLine t (arg_chapter_info cl) (arg_c cl) (arg_v cl).
Definition with_chapter_info (cl : CommandLine) (b : option bool) : CommandLine :=
  mk_CommandLine (arg_translation cl) b (arg_c cl) (arg_v cl).
Definition with_c_v (cl : CommandLine) (c v : option Z) : CommandLine :=
  mk_CommandLine (arg_translation cl) (arg_chapter_info cl) c v.

(** The six translator sources. *)
Definition translators : list string :=
  ["siva"; "purohit"; "adi"; "san"; "tej"; "chinmay"].

(** The dataset loads: the embedded file is read and parses to [corpus]. *)
Definition loads (w : World) (data : string) (corpus : AllSlokas) : Prop :=
  gitaFS w "gita.json" = inl data /\ decode_json w data = inl corpus.

(** The verse has the chapter and verse numbers [c] and [v]. *)
Definition numbered (c v : Z) (s : Sloka.t) : Prop :=
  Sloka.Chapter s = c /\ Sloka.Verse s = v.

(** The run with this command line and world selects the verse [s] of
    [corpus], after the events [t] of the selection. *)
Definition selects (cl : CommandLine) (w : World) (data : string)
           (corpus : AllSlokas) (t : list event) (s : Sloka.t) : Prop :=
  loads w data corpus /\
  select w (c_of cl) (v_of cl) corpus = (t, Done s).

(** The header line of a verse. *)
Definition header_line (c v : Z) : string :=
  Bold ++ "Chapter " ++ fmt.itoa c ++ ", Verse " ++ fmt.itoa v ++ Reset
       ++ Str.nl ++ Str.nl.

(** The commentary block: the wrapped text, then the byline. *)
Definition commentary_block (text author : string) : list event :=
  [Stdout (wrapText text ++ Str.nl);
   Stdout (Dim ++ "(" ++ author ++ ")" ++ Reset ++ Str.nl)].

(** The fields of a verse that belong to each translator source. *)
Inductive dispatch (s : Sloka.t) : string -> string -> string -> Prop :=
| dispatch_siva :
    dispatch s "siva" (SivaT.Et (Sloka.Siva s)) (SivaT.Author (Sloka.Siva s))
| dispatch_purohit :
    dispatch s "purohit" (EtT.Et (Sloka.Purohit s)) (EtT.Author (Sloka.Purohit s))
| dispatch_san :
    dispatch s "san" (EtT.Et (Sloka.San s)) (EtT.Author (Sloka.San s))
| dispatch_adi :
    dispatch s "adi" (EtT.Et (Sloka.Adi s)) (EtT.Author (Sloka.Adi s))
| dispatch_tej :
    dispatch s "tej" (TejT.Ht (Sloka.Tej s)) (TejT.Author (Sloka.Tej s))
| dispatch_chinmay :
    dispatch s "chinmay" (ChinmayT.Hc (Sloka.Chinmay s))
             (ChinmayT.Author (Sloka.Chinmay s)).

(** The error kinds of the specification. *)
Inductive error_kind : Type :=
| InvalidTranslatorSource
| DatasetUnreadable
| DatasetMalformed
| EmptyCorpus
| VerseNotFound.

(** When each error arises, and the message that reports it. *)
Inductive raises (cl : CommandLine) (w : World) : error_kind -> string -> Prop :=
| raises_invalid :
    ~ In (translation_of cl) translators ->
    raises cl w InvalidTranslatorSource
           ("Invalid translation source: " ++ translation_of cl ++ Str.nl
            ++ "Valid sources: siva, purohit, adi, san, tej, chinmay" ++ Str.nl)
| raises_unreadable (err : string) :
    In (translation_of cl) translators ->
    gitaFS w "gita.json" = inr err ->
    raises cl w DatasetUnreadable
           ("Error reading embedded data: " ++ err ++ Str.nl)
| raises_malformed (data err : string) :
    In (translation_of cl) translators ->
    gitaFS w "gita.json" = inl data -> decode_json w data = inr err ->
    raises cl w DatasetMalformed ("Error parsing JSON: " ++ err ++ Str.nl)
| raises_empty (data : string) (corpus : AllSlokas) :
    In (translation_of cl) translators ->
    loads w data corpus ->
    ~ (0 < c_of cl /\ 0 < v_of cl) ->
    Slokas corpus = [] ->
    raises cl w EmptyCorpus ("No slokas found in the JSON data." ++ Str.nl)
| raises_not_found (data : string) (corpus : AllSlokas) :
    In (translation_of cl) translators ->
    loads w data corpus ->
    0 < c_of cl -> 0 < v_of cl ->
    (forall s, In s (Slokas corpus) -> ~ numbered (c_of cl) (v_of cl) s) ->
    raises cl w VerseNotFound
           ("Chapter " ++ fmt.itoa (c_of cl) ++ ", Verse " ++ fmt.itoa (v_of cl)
            ++ " not found." ++ Str.nl).

(** Every error is reported on the given stream and ends the process with
    exit code 1. *)
Definition error_report (stream : IO unit -> string) : Prop :=
  forall cl w k msg,
    raises cl w k msg ->
    stream (main cl w) = msg /\ exit_code (main cl w) = 1.

(** The number of accesses to the embedded dataset in a trace. *)
Fixpoint dataset_reads (t : list event) : nat :=
  match t with
  | [] => 0
  | ReadEmbedded _ :: t' => S (dataset_reads t')
  | _ :: t' => dataset_reads t'
  end.

(** The event is an access to the dataset. *)
Definition dataset_event (e : event) : bool :=
  match e with
  | ReadEmbedded _ | Unmarshal _ => true
  | _ => false
  end.

(** ** Further vocabulary *)

(** The words written to a log, in order. *)
Fixpoint words_of (log : list write) : list string :=
  match log with
  | [] => []
  | Word w :: log' => w :: words_of log'
  | _ :: log' => words_of log'
  end.

(** Words joined by single spaces. *)
Fixpoint unwords (ws : list string) : string :=
  match ws with
  | [] => EmptyString
  | w :: ws' =>
    match ws' with
    | [] => w
    | _ :: _ => w ++ Str.sp ++ unwords ws'
    end
  end.

(** The string has a word: a rune that is not a space. *)
Definition has_word (s : string) : bool :=
  match strings.Fields s with
  | [] => false
  | _ :: _ => true
  end.

(** The rune is a space. *)
Definition space (p : Z * string) : bool := unicode.IsSpace (fst p).

(** The runes of a string without the spaces at its two ends. *)
Definition trimmed (rs : list (Z * string)) : list (Z * string) :=
  rev (strings.trim_left (rev (strings.trim_left rs))).

(** A line as the loops of [main] print it. *)
Definition printed_line (l : string) : event :=
  Stdout (wrapText l ++ Str.nl).

(** The chapter block: the name, the translation and the meaning where
    they are not empty, and a blank line. *)
Definition chapter_block (chapter : Chapter.t) : list event :=
  ([Stdout (Bold ++ "Chapter " ++ fmt.itoa (Chapter.ChapterNumber chapter)
                 ++ ": " ++ Chapter.Name chapter ++ Reset ++ Str.nl)] ++
   (if String.eqb (Chapter.Translation chapter) "" then []
    else [Stdout ("(" ++ Chapter.Translation chapter ++ ")" ++ Str.nl)]) ++
   (if String.eqb (Lang.En (Chapter.Meaning chapter)) "" then []
    else [Stdout (wrapText ("Meaning: " ++ Lang.En (Chapter.Meaning chapter))
                           ++ Str.nl)]) ++
   [Stdout Str.nl])%list.

(** The event is a write to the standard output. *)
Definition is_stdout (e : event) : bool :=
  match e with
  | Stdout _ => true
  | _ => false
  end.

(** The event is a use of the random source. *)
Definition random_event (e : event) : bool :=
  match e with
  | Seed | Intn _ => true
  | _ => false
  end.

(** Two worlds with the same embedded files and the same JSON decoder. *)
Definition same_dataset (w w' : World) : Prop :=
  (forall name, gitaFS w name = gitaFS w' name) /\
  (forall data, decode_json w data = decode_json w' data).

(** The line break between the lines [l1] and [l2] has a reason: the
    first word of [l2] does not fit on [l1], or the last word of [l1] ends
    a sentence before it. *)
Definition justified (l1 l2 : string) : Prop :=
  exists w,
    hd_error (strings.Fields l2) = Some w /\
    (displayWidth < RuneCountInString l1 + RuneCountInString w + 1 \/
     sentence_end (last (strings.Fields l1) "") [w] = true).

Fixpoint justified_breaks (ls : list string) : Prop :=
  match ls with
  | l1 :: tl =>
    match tl with
    | l2 :: _ => justified l1 l2 /\ justified_breaks tl
    | [] => True
    end
  | [] => True
  end.

(* ===================================================================== *)
(** * A small corpus to run the program on *)
(* ===================================================================== *)

Definition bg_2_47 : Sloka.t :=
  Sloka.mk "BG2.47" 2 47
    ("karmany evadhikaras te" ++ Str.nl ++ "  ma phaleshu kadachana  ")
    "karmany-evadhikaras te. ma phaleshu kadachana."
    (TejT.mk "Swami Tejomayananda" "karm karne mein hi tera adhikar hai")
    (SivaT.mk "Swami Sivananda"
              "Thy right is to work only. Never to its fruits!" "")
    (EtT.mk "Shri Purohit Swami" "But thou hast only the right to work.")
    (ChinmayT.mk "Swami Chinmayananda" "karm mein hi adhikar")
    (EtT.mk "Dr. S. Sankaranarayan" "Let your claim lie on action alone.")
    (EtT.mk "Swami Adidevananda" "To work alone you have the right.").

Definition bg_2_48 : Sloka.t :=
  Sloka.mk "BG2.48" 2 48 "yoga-sthah kuru karmani" "yoga-sthah kuru karmani."
    (TejT.mk "Swami Tejomayananda" "yog mein sthit hokar")
    (SivaT.mk "Swami Sivananda" "Perform action, being steadfast in Yoga." "")
    (EtT.mk "Shri Purohit Swami" "Do thy duty.")
    (ChinmayT.mk "Swami Chinmayananda" "yog mein sthit")
    (EtT.mk "Dr. S. Sankaranarayan" "Established in Yoga, perform actions.")
    (EtT.mk "Swami Adidevananda" "Abandon attachment.").

Definition chapter_2 : Chapter.t :=
  Chapter.mk 2 72 "Sankhya Yoga" "Transcendental Knowledge" "Sankhya Yog"
             (Lang.mk "The Yoga of Knowledge" "") (Lang.mk "" "").

Definition chapter_3 : Chapter.t :=
  Chapter.mk 3 43 "Karma Yoga" "Path of Selfless Service" "Karm Yog"
             (Lang.mk "The Yoga of Action" "") (Lang.mk "" "").

Definition sample_corpus : AllSlokas :=
  mk_AllSlokas [chapter_2] [bg_2_47; bg_2_48].

(** A world in which the dataset loads to [corpus] and the random source
    draws [r] modulo the bound. *)
Definition world_of (corpus : AllSlokas) (r : Z) : World :=
  mk_World (fun _ => inl "{}") (fun _ => inl corpus) (fun n => r mod n).

Definition sample_world : World := world_of sample_corpus 1.

(* ===================================================================== *)
(** * Facts about byte strings *)
(* ===================================================================== *)

Module StrFacts.
Import Str.

Lemma append_nil_r (s : string) : s ++ "" = s.
Proof. induction s as [|c s IH]; simpl; congruence. Qed.

Lemma append_assoc (s t u : string) : (s ++ t) ++ u = s ++ t ++ u.
Proof. induction s as [|c s IH]; simpl; congruence. Qed.

Lemma length_append (s t : string) :
  String.length (s ++ t) = (String.length s + String.length t)%nat.
Proof. induction s as [|c s IH]; simpl; congruence. Qed.

Lemma take_drop (n : nat) (s : string) : take n s ++ drop n s = s.
Proof.
  revert s; induction n as [|n IH]; intros [|c s]; simpl; try reflexivity.
  now rewrite IH.
Qed.

Lemma length_take (n : nat) (s : string) :
  (n <= String.length s)%nat -> String.length (take n s) = n.
Proof.
  revert s; induction n as [|n IH]; intros [|c s]; simpl; intros H;
    try reflexivity; try lia.
  rewrite IH; lia.
Qed.

Lemma length_drop (n : nat) (s : string) :
  String.length (drop n s) = (String.length s - n)%nat.
Proof.
  revert s; induction n as [|n IH]; intros [|c s]; simpl; try lia.
  apply IH.
Qed.

Lemma take_app (n : nat) (s t : string) :
  (n <= String.length s)%nat -> take n (s ++ t) = take n s.
Proof.
  revert s; induction n as [|n IH]; intros [|c s]; simpl; intros H;
    try reflexivity; try lia.
  rewrite IH; [reflexivity | lia].
Qed.

Lemma drop_app (n : nat) (s t : string) :
  (n <= String.length s)%nat -> drop n (s ++ t) = drop n s ++ t.
Proof.
  revert s; induction n as [|n IH]; intros [|c s]; simpl; intros H;
    try reflexivity; try lia.
  apply IH; lia.
Qed.

Lemma cat_app (l1 l2 : list string) :
  cat (l1 ++ l2)%list = cat l1 ++ cat l2.
Proof.
  induction l1 as [|s l1 IH]; simpl; [reflexivity|].
  now rewrite IH, append_assoc.
Qed.

Lemma byte_range (c : ascii) : 0 <= byte c < 256.
Proof.
  unfold byte. pose proof (N_ascii_bounded c). lia.
Qed.

End StrFacts.

(* ===================================================================== *)
(** * Facts about UTF-8 decoding *)
(* ===================================================================== *)

Module utf8Facts.
Import utf8.

(** What the table [first] says: a one-byte case, or a width from 2 to 4
    with a range of continuation bytes for the second byte. *)
Lemma first_cases (b : Z) :
  (as_ <=? first b) = true \/
  exists sz lo hi,
    (as_ <=? first b) = false /\
    Z.to_nat (Z.land (first b) 7) = sz /\
    acceptRanges (Z.shiftr (first b) 4) = (lo, hi) /\
    (2 <= sz <= 4)%nat /\ locb <= lo /\ hi <= hicb.
Proof.
  unfold first.
  repeat match goal with
         | |- context [if ?c then _ else _] => destruct c
         end;
    try (left; reflexivity);
    right; do 3 eexists; repeat split; try reflexivity;
      try (vm_compute; intro; discriminate); try (vm_compute; lia).
Qed.

(** The decoder on a first byte of the one-byte cases. *)
Lemma decode_single (c : ascii) (t : string) :
  (as_ <=? first (Str.byte c)) = true ->
  DecodeRuneInString (String c t) =
  ((if Z.testbit (first (Str.byte c)) 0 then RuneError else Str.byte c), 1%nat).
Proof.
  intros H. unfold DecodeRuneInString. now rewrite H.
Qed.

Lemma decode_several (c : ascii) (t : string) (sz : nat) (lo hi : Z) :
  (as_ <=? first (Str.byte c)) = false ->
  Z.to_nat (Z.land (first (Str.byte c)) 7) = sz ->
  acceptRanges (Z.shiftr (first (Str.byte c)) 4) = (lo, hi) ->
  DecodeRuneInString (String c t) = decode_multi sz lo hi c t.
Proof.
  intros H1 H2 H3. unfold DecodeRuneInString, decode_multi.
  rewrite H1, H2, H3. reflexivity.
Qed.

Ltac bools :=
  repeat match goal with
         | H : (_ || _) = true |- _ => apply orb_true_iff in H
         | H : (_ || _) = false |- _ => apply orb_false_iff in H; destruct H
         | H : (_ && _) = true |- _ => apply andb_true_iff in H; destruct H
         | H : (_ && _) = false |- _ => apply andb_false_iff in H
         | H : (_ <? _) = true |- _ => apply Z.ltb_lt in H
         | H : (_ <? _) = false |- _ => apply Z.ltb_ge in H
         | H : (_ <=? _) = true |- _ => apply Z.leb_le in H
         | H : (_ <=? _) = false |- _ => apply Z.leb_gt in H
         | H : (_ <? _)%nat = true |- _ => apply Nat.ltb_lt in H
         | H : (_ <? _)%nat = false |- _ => apply Nat.ltb_ge in H
         | H : (_ <=? _)%nat = true |- _ => apply Nat.leb_le in H
         | H : (_ <=? _)%nat = false |- _ => apply Nat.leb_gt in H
         end.

Ltac split_ifs :=
  repeat match goal with
         | |- context [if ?c then _ else _] =>
           let E := fresh "E" in destruct c eqn:E
         end.

(** The width is at least one byte and stays within the string. *)
Lemma decode_width (c : ascii) (t : string) :
  (1 <= snd (DecodeRuneInString (String c t)) <= S (String.length t))%nat.
Proof.
  destruct (first_cases (Str.byte c))
    as [H | (sz & lo & hi & H1 & H2 & H3 & Hsz & _)].
  - rewrite decode_single by assumption. simpl. lia.
  - rewrite (decode_several _ _ _ _ _ H1 H2 H3). unfold decode_multi.
    destruct t as [|c1 [|c2 [|c3 t]]]; simpl String.length;
      split_ifs; simpl; bools; lia.
Qed.

(** The bytes of an encoding after the first are continuation bytes. *)
Lemma decode_cont (c : ascii) (t : string) :
  all_cont (Str.take (snd (DecodeRuneInString (String c t)) - 1) t) = true.
Proof.
  destruct (first_cases (Str.byte c))
    as [H | (sz & lo & hi & H1 & H2 & H3 & Hsz & Hlo & Hhi)].
  - rewrite decode_single by assumption. reflexivity.
  - rewrite (decode_several _ _ _ _ _ H1 H2 H3). unfold decode_multi.
    unfold locb, hicb in *.
    destruct t as [|c1 [|c2 [|c3 t]]]; simpl String.length;
      split_ifs; simpl; try reflexivity; unfold is_cont, locb, hicb;
      bools;
      repeat (apply andb_true_iff; split); try reflexivity;
      try (apply Z.leb_le; lia).
Qed.

(** Decoding does not look past a byte that starts a rune: what follows
    such a byte has no influence on the rune decoded before it. *)
Lemma decode_app (c : ascii) (u rest : string) :
  starts_rune rest ->
  DecodeRuneInString (String c u ++ rest) = DecodeRuneInString (String c u).
Proof.
  intros Hr. simpl append.
  destruct (first_cases (Str.byte c))
    as [H | (sz & lo & hi & H1 & H2 & H3 & Hsz & Hlo & Hhi)].
  - now rewrite !decode_single by assumption.
  - rewrite !(decode_several _ _ _ _ _ H1 H2 H3). unfold decode_multi.
    unfold locb, hicb in *.
    destruct rest as [|r rest].
    + now rewrite StrFacts.append_nil_r.
    + simpl in Hr. unfold is_cont, locb, hicb in Hr.
      destruct u as [|c1 [|c2 [|c3 u]]]; simpl append; simpl String.length;
        try rewrite StrFacts.length_append; simpl String.length;
        split_ifs; try reflexivity; bools; exfalso; lia.
Qed.

(** A byte below [RuneSelf] is a rune of its own. *)
Lemma decode_ascii (c : ascii) (t : string) :
  Str.byte c < RuneSelf ->
  DecodeRuneInString (String c t) = (Str.byte c, 1%nat).
Proof.
  intros H. unfold RuneSelf in H. rewrite decode_single.
  - unfold first. apply Z.ltb_lt in H. now rewrite H.
  - unfold first. apply Z.ltb_lt in H. now rewrite H.
Qed.

(** A stray continuation byte decodes to [RuneError]. *)
Lemma decode_stray (c : ascii) (t : string) :
  is_cont c = true ->
  DecodeRuneInString (String c t) = (RuneError, 1%nat).
Proof.
  unfold is_cont, locb, hicb. intros H. bools.
  assert (E : first (Str.byte c) = xx).
  { unfold first.
    destruct (Str.byte c <? 128) eqn:E1; bools; [lia|].
    destruct (Str.byte c <? 194) eqn:E2; bools; [reflexivity | lia]. }
  rewrite decode_single; rewrite E; reflexivity.
Qed.

End utf8Facts.

(* ===================================================================== *)
(** * Facts about ranging over a string and about [Fields] *)
(* ===================================================================== *)

Module rangeFacts.
Import Str StrFacts utf8Facts.

#[local] Arguments utf8.DecodeRuneInString : simpl never.

Lemma range_nil : range_string "" = [].
Proof. now simp range_string. Qed.

Lemma range_cons (c : ascii) (t : string) :
  range_string (String c t) =
  (fst (utf8.DecodeRuneInString (String c t)),
   take (snd (utf8.DecodeRuneInString (String c t))) (String c t))
    :: range_string (drop (snd (utf8.DecodeRuneInString (String c t)) - 1) t).
Proof. now simp range_string. Qed.

Lemma range_ascii (c : ascii) (t : string) :
  byte c < utf8.RuneSelf ->
  range_string (String c t) = (byte c, String c "") :: range_string t.
Proof.
  intros H. rewrite range_cons, decode_ascii by assumption. reflexivity.
Qed.

Lemma range_nonempty (s : string) : s <> "" -> range_string s <> [].
Proof.
  destruct s as [|c t]; [congruence|]. intros _. now rewrite range_cons.
Qed.

(** Strong induction on the length of a string. *)
Lemma length_ind (P : string -> Prop) :
  (forall s, (forall t, (String.length t < String.length s)%nat -> P t) -> P s) ->
  forall s, P s.
Proof.
  intros H s.
  remember (String.length s) as n eqn:E.
  revert s E. induction n as [n IH] using lt_wf_ind.
  intros s ->. apply H. intros t Ht. now apply (IH (String.length t)).
Qed.

(** The runes of a concatenation, when the right part starts a rune. *)
Lemma range_app (u rest : string) :
  starts_rune rest ->
  range_string (u ++ rest) = (range_string u ++ range_string rest)%list.
Proof.
  intros Hr. induction u as [u IH] using length_ind.
  destruct u as [|c u]; [now rewrite range_nil|].
  change (String c u ++ rest) with (String c (u ++ rest)).
  rewrite !range_cons.
  change (String c (u ++ rest)) with (String c u ++ rest).
  rewrite decode_app by assumption.
  pose proof (decode_width c u) as [Hw1 Hw2].
  destruct (utf8.DecodeRuneInString (String c u)) as [r n].
  simpl fst in *; simpl snd in *.
  rewrite take_app by (simpl; lia).
  rewrite drop_app by lia.
  rewrite IH.
  - reflexivity.
  - simpl. rewrite length_drop. lia.
Qed.

(** The encodings of the runes, put together, are the string. *)
Lemma range_cat (s : string) : cat (map snd (range_string s)) = s.
Proof.
  induction s as [s IH] using length_ind.
  destruct s as [|c t]; [now rewrite range_nil|].
  rewrite range_cons. simpl map. simpl cat.
  pose proof (decode_width c t) as [Hw1 Hw2].
  destruct (utf8.DecodeRuneInString (String c t)) as [r n].
  simpl fst in *; simpl snd in *.
  rewrite IH by (simpl; rewrite length_drop; lia).
  destruct n as [|n]; [lia|]. simpl.
  rewrite Nat.sub_0_r. now rewrite take_drop.
Qed.

Lemma range_chunks (s : string) : Forall chunk_ok (range_string s).
Proof.
  induction s as [s IH] using length_ind.
  destruct s as [|c t]; [rewrite range_nil; constructor|].
  rewrite range_cons.
  pose proof (decode_width c t) as [Hw1 Hw2].
  pose proof (decode_cont c t) as Hc.
  constructor.
  - destruct (snd (utf8.DecodeRuneInString (String c t))) as [|n] eqn:E;
      [lia|].
    exists c, (take n t). simpl.
    replace (S n - 1)%nat with n in Hc by lia.
    repeat split; try assumption.
    + intros Hb. now rewrite decode_ascii.
    + intros Hb. now rewrite decode_stray.
  - apply IH. simpl. rewrite length_drop. lia.
Qed.

(** A string has at most as many runes as bytes. *)
Lemma range_length (s : string) :
  (List.length (range_string s) <= String.length s)%nat.
Proof.
  induction s as [s IH] using length_ind.
  destruct s as [|c t]; [rewrite range_nil; simpl; lia|].
  rewrite range_cons. simpl List.length. simpl String.length.
  pose proof (IH (drop (snd (utf8.DecodeRuneInString (String c t)) - 1) t)) as H.
  rewrite length_drop in H. simpl String.length in H.
  specialize (H ltac:(lia)). lia.
Qed.

Lemma walk_range (s : string) : walk (range_string s).
Proof. unfold walk. now rewrite range_cat. Qed.

Lemma walk_tail (p : Z * string) (rs : list (Z * string)) :
  walk (p :: rs) -> walk rs.
Proof.
  unfold walk. destruct p as [r bs]. simpl map. simpl cat. intros H.
  destruct bs as [|c bs].
  - simpl in H. pose proof (range_chunks (cat (map snd rs))) as Hc.
    rewrite H in Hc. inversion Hc as [|? ? (c & cs & E & _) _]; subst.
    discriminate.
  - change (String c bs ++ cat (map snd rs))
      with (String c (bs ++ cat (map snd rs))) in H.
    rewrite range_cons in H.
    pose proof (decode_width c (bs ++ cat (map snd rs))) as [Hw1 Hw2].
    destruct (utf8.DecodeRuneInString
                (String c (bs ++ cat (map snd rs)))) as [r' n].
    simpl fst in *; simpl snd in *.
    injection H as _ Ht Hd.
    assert (En : n = S (String.length bs)).
    { apply (f_equal String.length) in Ht.
      rewrite length_take in Ht by (simpl; lia). exact Ht. }
    rewrite En in Hd. simpl in Hd.
    rewrite Nat.sub_0_r, drop_app in Hd by lia.
    replace (drop (String.length bs) bs) with "" in Hd; [exact Hd|].
    clear. induction bs; simpl; congruence.
Qed.

Lemma walk_app_r (pre rs : list (Z * string)) :
  walk (pre ++ rs) -> walk rs.
Proof.
  induction pre as [|p pre IH]; simpl; [trivial|].
  intros H. apply IH. eapply walk_tail; eassumption.
Qed.

Lemma walk_app_l (pre rs : list (Z * string)) :
  walk (pre ++ rs) -> starts_rune (cat (map snd rs)) -> walk pre.
Proof.
  intros H Hs. pose proof (walk_app_r _ _ H) as Hr.
  unfold walk in *.
  rewrite map_app, cat_app, range_app, Hr in H by assumption.
  now apply app_inv_tail in H.
Qed.

(** A space is never decoded from a stray continuation byte. *)
Lemma walk_space_starts (r : Z) (bs : string) (rs : list (Z * string)) :
  walk ((r, bs) :: rs) -> unicode.IsSpace r = true ->
  starts_rune (cat (map snd ((r, bs) :: rs))).
Proof.
  intros H Hsp. pose proof (range_chunks (cat (map snd ((r, bs) :: rs)))) as Hc.
  rewrite H in Hc. inversion Hc as [|? ? (c & cs & E & _ & _ & Hstray) _]; subst.
  simpl in E. subst bs. simpl.
  destruct (is_cont c) eqn:Ec; [|reflexivity].
  simpl in Hstray. rewrite (Hstray eq_refl) in Hsp. discriminate.
Qed.

End rangeFacts.

Module FieldsFacts.
Import Str StrFacts utf8Facts rangeFacts.

#[local] Arguments utf8.DecodeRuneInString : simpl never.

Lemma start_of_snoc (pre : list (Z * string)) (r : Z) (bs : string) :
  start_of (pre ++ [(r, bs)])%list =
  Some (match start_of pre with Some w => w ++ bs | None => bs end).
Proof.
  destruct pre as [|p pre]; simpl.
  - now rewrite append_nil_r.
  - rewrite map_app, cat_app. simpl. now rewrite append_nil_r, append_assoc.
Qed.

Lemma walk_token (pre : list (Z * string)) :
  pre <> [] -> walk pre -> forallb nonspace pre = true ->
  token (cat (map snd pre)).
Proof.
  intros Hne Hw Hns. split.
  - intros E. unfold walk in Hw. rewrite E, range_nil in Hw. congruence.
  - now rewrite Hw.
Qed.

(** Every field that the loop of [FieldsFunc] closes is a token. *)
Lemma spans_tokens (rs pre : list (Z * string)) :
  walk (pre ++ rs)%list -> forallb nonspace pre = true ->
  Forall token (strings.spans unicode.IsSpace rs (start_of pre)).
Proof.
  revert pre. induction rs as [|[r bs] rs IH]; intros pre Hw Hns.
  - rewrite app_nil_r in Hw. destruct pre as [|p pre]; simpl.
    + constructor.
    + constructor; [|constructor]. now apply (walk_token (p :: pre)).
  - simpl. destruct (unicode.IsSpace r) eqn:Er.
    + assert (Hrs : walk rs).
      { apply (walk_app_r (pre ++ [(r, bs)])%list). now rewrite <- app_assoc. }
      specialize (IH [] Hrs eq_refl). simpl in IH.
      destruct pre as [|p pre]; simpl; [exact IH|].
      constructor; [|exact IH].
      apply (walk_token (p :: pre)); [discriminate| |assumption].
      apply (walk_app_l _ ((r, bs) :: rs)); [assumption|].
      apply walk_space_starts; [|assumption].
      eapply walk_app_r; eassumption.
    + specialize (IH (pre ++ [(r, bs)])%list).
      rewrite start_of_snoc in IH.
      destruct (start_of pre); apply IH;
        try (now rewrite <- app_assoc);
        rewrite forallb_app, Hns; simpl; unfold nonspace; simpl;
          now rewrite Er.
Qed.

Lemma Fields_tokens (s : string) : Forall token (strings.Fields s).
Proof.
  apply (spans_tokens (range_string s) []); [|reflexivity].
  apply walk_range.
Qed.

(** The loop of [FieldsFunc] over a run of runes that are not spaces. *)
Lemma spans_run (ns rest : list (Z * string)) (start : option string) :
  forallb nonspace ns = true ->
  strings.spans unicode.IsSpace (ns ++ rest)%list start =
  strings.spans unicode.IsSpace rest
    (match ns with
     | [] => start
     | _ => Some (match start with
                  | Some w => w ++ cat (map snd ns)
                  | None => cat (map snd ns)
                  end)
     end).
Proof.
  revert start. induction ns as [|[r bs] ns IH]; intros start H.
  - reflexivity.
  - simpl in H. apply andb_true_iff in H as [Hr Hns].
    unfold nonspace in Hr. simpl in Hr. apply negb_true_iff in Hr.
    simpl app. simpl strings.spans. rewrite Hr.
    destruct start as [w|]; rewrite IH by assumption;
      destruct ns; simpl; now rewrite ?append_nil_r, ?append_assoc.
Qed.

Lemma ascii_space_starts (c : ascii) (x : string) :
  ascii_space c -> starts_rune (String c x).
Proof.
  intros [H _]. simpl. unfold is_cont, utf8.locb, utf8.RuneSelf in *.
  apply andb_false_iff. left. apply Z.leb_gt. lia.
Qed.

(** A token followed by an ASCII space is the first field. *)
Lemma Fields_cons (w : string) (c : ascii) (x : string) :
  token w -> ascii_space c ->
  strings.Fields (w ++ String c x) = w :: strings.Fields x.
Proof.
  intros [Hne Hns] Hc. unfold strings.Fields, strings.FieldsFunc.
  rewrite range_app by (now apply ascii_space_starts).
  rewrite range_ascii by apply Hc.
  rewrite spans_run by assumption.
  pose proof (range_nonempty w Hne).
  destruct (range_string w) eqn:E; [congruence|]. rewrite <- E.
  simpl. destruct Hc as [_ Hc]. rewrite Hc. now rewrite range_cat.
Qed.

(** A token is its own single field. *)
Lemma Fields_token (w : string) : token w -> strings.Fields w = [w].
Proof.
  intros [Hne Hns]. unfold strings.Fields, strings.FieldsFunc.
  rewrite <- (List.app_nil_r (range_string w)).
  rewrite spans_run by assumption.
  pose proof (range_nonempty w Hne).
  destruct (range_string w) eqn:E; [congruence|]. rewrite <- E.
  simpl. now rewrite range_cat.
Qed.

(** The fields are pieces of the string: together they are no longer. *)
Lemma spans_length (f : Z -> bool) (rs : list (Z * string))
      (start : option string) :
  (list_sum (map String.length (strings.spans f rs start))
   <= match start with Some w => String.length w | None => 0 end
      + String.length (cat (map snd rs)))%nat.
Proof.
  revert start. induction rs as [|[r bs] rs IH]; intros start.
  - destruct start; simpl; lia.
  - simpl map. simpl cat. rewrite length_append. simpl strings.spans.
    destruct (f r).
    + destruct start as [w|].
      * simpl. specialize (IH None). simpl in IH. lia.
      * specialize (IH None). simpl in IH. lia.
    + destruct start as [w|].
      * specialize (IH (Some (w ++ bs))). cbv beta iota in IH.
        rewrite length_append in IH. lia.
      * specialize (IH (Some bs)). cbv beta iota in IH. lia.
Qed.

Lemma Fields_length (s w : string) :
  In w (strings.Fields s) -> (String.length w <= String.length s)%nat.
Proof.
  intros Hin.
  pose proof (spans_length unicode.IsSpace (range_string s) None) as H.
  rewrite range_cat in H. simpl in H.
  fold (strings.FieldsFunc s unicode.IsSpace) in H. fold (strings.Fields s) in H.
  induction (strings.Fields s) as [|x l IH]; [destruct Hin|].
  simpl in H. destruct Hin as [->|Hin]; [lia|]. apply IH; [assumption | lia].
Qed.

Lemma token_count (w : string) : token w -> 0 < RuneCountInString w.
Proof.
  intros [Hne _]. unfold RuneCountInString.
  pose proof (range_nonempty w Hne).
  destruct (range_string w); [congruence|]. simpl List.length. lia.
Qed.

Lemma mem_app (a : ascii) (s t : string) :
  mem a (s ++ t) = mem a s || mem a t.
Proof.
  induction s as [|c s IH]; simpl; [reflexivity|].
  now rewrite IH, orb_assoc.
Qed.

Lemma all_cont_mem (a : ascii) (s : string) :
  is_cont a = false -> all_cont s = true -> mem a s = false.
Proof.
  intros Ha. induction s as [|c s IH]; simpl; [reflexivity|].
  intros H. apply andb_true_iff in H as [Hc Hs].
  rewrite (IH Hs), orb_false_r.
  destruct (Ascii.eqb_spec a c); [congruence | reflexivity].
Qed.

(** No ASCII space occurs in a token, not even inside an encoding. *)
Lemma token_mem (a : ascii) (w : string) :
  ascii_space a -> token w -> mem a w = false.
Proof.
  intros Ha [_ Hns].
  pose proof (range_chunks w) as Hc. rewrite <- (range_cat w).
  induction (range_string w) as [|[r bs] rs IH]; [reflexivity|].
  simpl in Hns. apply andb_true_iff in Hns as [Hr Hns].
  inversion Hc as [|? ? (c & cs & E & Hcs & Hlow & _) Hc']; subst.
  simpl in E. subst bs.
  change (cat (map snd ((r, String c cs) :: rs)))
    with (String c cs ++ cat (map snd rs)).
  rewrite mem_app, (IH Hns Hc'), orb_false_r. simpl.
  assert (Hcont : is_cont a = false).
  { pose proof (ascii_space_starts a "" Ha) as H. exact H. }
  rewrite (all_cont_mem a cs Hcont Hcs), orb_false_r.
  destruct (Ascii.eqb_spec a c) as [->|]; [|reflexivity].
  destruct Ha as [Hlt Hsp]. simpl in Hlow. rewrite (Hlow Hlt) in Hr.
  unfold nonspace in Hr. simpl in Hr. rewrite Hsp in Hr. discriminate.
Qed.

End FieldsFacts.

(* ===================================================================== *)
(** * Facts about the text wrapper *)
(* ===================================================================== *)

Module wrapFacts.
Import Str StrFacts rangeFacts FieldsFacts.

Lemma int_add_small (a b : Z) :
  - 2 ^ 63 <= a + b < 2 ^ 63 -> int.add a b = a + b.
Proof.
  unfold int.add, int.wrap.
  change (2 ^ 63) with 9223372036854775808.
  change (2 ^ 64) with 18446744073709551616.
  intros H. rewrite Z.mod_small by lia. lia.
Qed.

Lemma count_nonneg (w : string) : 0 <= RuneCountInString w.
Proof. unfold RuneCountInString. lia. Qed.

(** One iteration, when the counter and the word are small: no addition
    wraps around, and the writes are those of [emit]. *)
Lemma wrap_iter_emit (st : wrap_state) (w : string) (rest : list string) :
  RuneCountInString w < 2 ^ 62 -> 0 <= current st < 2 ^ 62 ->
  0 <= current (wrap_iter st w rest) < 2 ^ 62 /\
  (result (wrap_iter st w rest) ++ emit rest (current (wrap_iter st w rest))
   = result st ++ emit (w :: rest) (current st))%list.
Proof.
  change (2 ^ 62) with 4611686018427387904.
  intros Hw Hcur. pose proof (count_nonneg w) as Hw0.
  assert (Hb : - 2 ^ 63 <= 0 /\ 4611686018427387904 * 2 = 2 ^ 63)
    by (split; [discriminate | reflexivity]).
  unfold wrap_iter, Builder.WriteString. simpl emit.
  rewrite (int_add_small (current st) (RuneCountInString w)) by lia.
  rewrite (int_add_small (current st + RuneCountInString w) 1) by lia.
  unfold displayWidth.
  destruct ((70 <? current st + RuneCountInString w + 1) && (0 <? current st))
    eqn:E1; cbn [current result].
  - change (0 <? 0) with false. cbv iota. cbn [current result].
    rewrite (int_add_small 0 (RuneCountInString w)) by lia.
    destruct (sentence_end w rest); cbn [current result];
      (split; [lia|]); repeat rewrite <- List.app_assoc; reflexivity.
  - destruct (0 <? current st) eqn:E2; cbn [current result].
    + rewrite andb_true_r in E1. apply Z.ltb_ge in E1.
      rewrite (int_add_small (current st) 1) by lia.
      rewrite (int_add_small (current st + 1) (RuneCountInString w)) by lia.
      destruct (sentence_end w rest); cbn [current result];
        (split; [lia|]); repeat rewrite <- List.app_assoc; reflexivity.
    + rewrite (int_add_small (current st) (RuneCountInString w)) by lia.
      destruct (sentence_end w rest); cbn [current result];
        (split; [lia|]); repeat rewrite <- List.app_assoc; reflexivity.
Qed.

Lemma wrap_loop_emit (ws : list string) (st : wrap_state) :
  Forall (fun w => RuneCountInString w < 2 ^ 62) ws ->
  0 <= current st < 2 ^ 62 ->
  result (wrap_loop ws st) = (result st ++ emit ws (current st))%list.
Proof.
  revert st. induction ws as [|w rest IH]; intros st Hall Hcur.
  - simpl. now rewrite List.app_nil_r.
  - inversion Hall as [|? ? Hw Hrest]; subst.
    destruct (wrap_iter_emit st w rest Hw Hcur) as [Hcur' E].
    cbn [wrap_loop]. rewrite (IH _ Hrest Hcur'). exact E.
Qed.

(** The words of an addressable text are small. *)
Lemma Fields_small (text : string) :
  addressable text ->
  Forall (fun w => RuneCountInString w < 2 ^ 62) (strings.Fields text).
Proof.
  unfold addressable. intros H. apply Forall_forall. intros w Hin.
  apply Fields_length in Hin. pose proof (range_length w).
  unfold RuneCountInString. lia.
Qed.

Lemma wrap_log_emit (text : string) :
  addressable text -> wrap_log text = emit (strings.Fields text) 0.
Proof.
  intros H. unfold wrap_log.
  rewrite wrap_loop_emit; [reflexivity | now apply Fields_small |].
  simpl. split; [lia | reflexivity].
Qed.

(** The three ways an iteration starts. *)
Lemma emit_cons (w : string) (rest : list string) (cur : Z) :
  0 <= cur ->
  (cur = 0 /\ emit (w :: rest) cur
              = Word w :: after w rest (RuneCountInString w)) \/
  (0 < cur /\ displayWidth < cur + RuneCountInString w + 1 /\
   emit (w :: rest) cur
   = WidthBreak :: Word w :: after w rest (RuneCountInString w)) \/
  (0 < cur /\ cur + RuneCountInString w + 1 <= displayWidth /\
   emit (w :: rest) cur
   = Space :: Word w :: after w rest (cur + 1 + RuneCountInString w)).
Proof.
  intros Hc. unfold after.
  destruct (Z.eq_dec cur 0) as [->|Hne].
  - left. split; [reflexivity|]. simpl emit. rewrite andb_false_r.
    reflexivity.
  - right. assert (E0 : (0 <? cur) = true) by (apply Z.ltb_lt; lia).
    simpl emit. rewrite E0, andb_true_r.
    destruct (displayWidth <? cur + RuneCountInString w + 1) eqn:E1.
    + left. apply Z.ltb_lt in E1. split; [lia | split; [lia | reflexivity]].
    + right. apply Z.ltb_ge in E1. rewrite E0.
      split; [lia | split; [lia | reflexivity]].
Qed.

Lemma String_cons (x : write) (log : list write) :
  Builder.String_ (x :: log) = written x ++ Builder.String_ log.
Proof. reflexivity. Qed.

Lemma space_is_ascii_space : ascii_space " "%char.
Proof. split; reflexivity. Qed.

Lemma LF_is_ascii_space : ascii_space LF.
Proof. split; reflexivity. Qed.

(** The output from [cur]: the words still to come, woven with single
    separators, after a separator exactly when a line is in progress. *)
Lemma emit_weave (ws : list string) :
  Forall token ws -> ws <> [] ->
  forall cur, 0 <= cur ->
  exists lead seps,
    (cur = 0 -> lead = "") /\ (0 < cur -> separator lead) /\
    List.length seps = pred (List.length ws) /\
    Forall separator seps /\
    Builder.String_ (emit ws cur) = lead ++ weave ws seps.
Proof.
  induction ws as [|w rest IH]; [congruence|].
  intros Htok _ cur Hcur.
  inversion Htok as [|? ? Hw Hrest]; subst.
  pose proof (token_count w Hw) as Hlen.
  assert (Hafter : forall c, 0 < c ->
            exists seps, List.length seps = List.length rest /\
                         Forall separator seps /\
                         Builder.String_ (Word w :: after w rest c)
                         = weave (w :: rest) seps).
  { intros c Hc. unfold after. destruct rest as [|w' rest'].
    - exists []. split; [reflexivity|]. split; [constructor|].
      cbn. apply append_nil_r.
    - destruct (sentence_end w (w' :: rest')).
      + destruct (IH Hrest ltac:(discriminate) 0 ltac:(lia))
          as (lead & seps & H0 & _ & Hl & Hs & E).
        rewrite (H0 eq_refl) in E. exists (nl :: seps).
        split; [simpl in *; lia|]. split; [constructor; [now right | exact Hs]|].
        rewrite !String_cons, E. reflexivity.
      + destruct (IH Hrest ltac:(discriminate) c ltac:(lia))
          as (lead & seps & _ & Hp & Hl & Hs & E).
        exists (lead :: seps).
        split; [simpl in *; lia|]. split; [constructor; [auto | exact Hs]|].
        rewrite !String_cons, E. reflexivity. }
  destruct (emit_cons w rest cur Hcur)
    as [[-> E] | [(Hpos & _ & E) | (Hpos & _ & E)]]; rewrite E.
  - destruct (Hafter (RuneCountInString w) Hlen) as (seps & Hl & Hs & E').
    exists "", seps. repeat split; try assumption; try lia.
  - destruct (Hafter (RuneCountInString w) Hlen) as (seps & Hl & Hs & E').
    exists nl, seps. rewrite String_cons, E'.
    repeat split; try assumption; try lia. intros _. now right.
  - destruct (Hafter (cur + 1 + RuneCountInString w) ltac:(lia))
      as (seps & Hl & Hs & E').
    exists sp, seps. rewrite String_cons, E'.
    repeat split; try assumption; try lia. intros _. now left.
Qed.

(** Splitting woven tokens on white space gives the tokens back. *)
Lemma Fields_weave (ws seps : list string) :
  Forall token ws -> Forall separator seps ->
  List.length seps = pred (List.length ws) ->
  strings.Fields (weave ws seps) = ws.
Proof.
  revert seps. induction ws as [|w ws IH]; intros seps Htok Hsep Hlen.
  - reflexivity.
  - inversion Htok as [|? ? Hw Hws]; subst.
    destruct ws as [|w' ws'].
    + simpl. now apply Fields_token.
    + destruct seps as [|s seps]; [discriminate|].
      inversion Hsep as [|? ? Hs Hseps]; subst.
      change (weave (w :: w' :: ws') (s :: seps))
        with (w ++ s ++ weave (w' :: ws') seps).
      assert (E : exists c, ascii_space c /\ s = String c "").
      { destruct Hs as [-> | ->].
        - exists " "%char. split; [apply space_is_ascii_space | reflexivity].
        - exists LF. split; [apply LF_is_ascii_space | reflexivity]. }
      destruct E as (c & Hc & ->).
      change (w ++ String c "" ++ weave (w' :: ws') seps)
        with (w ++ String c (weave (w' :: ws') seps)).
      rewrite Fields_cons by assumption.
      rewrite IH; auto.
Qed.

(** The output of [wrapText] in terms of the fields of its input. *)
Lemma wrapText_weave (text : string) :
  addressable text ->
  exists seps,
    List.length seps = pred (List.length (strings.Fields text)) /\
    Forall separator seps /\
    wrapText text = weave (strings.Fields text) seps.
Proof.
  intros Ha. unfold wrapText. rewrite wrap_log_emit by assumption.
  destruct (strings.Fields text) as [|w ws] eqn:E.
  - exists []. simpl. auto.
  - assert (Htok : Forall token (w :: ws)).
    { rewrite <- E. apply Fields_tokens. }
    destruct (emit_weave (w :: ws) Htok ltac:(discriminate) 0 ltac:(lia))
      as (lead & seps & H0 & _ & Hl & Hs & E').
    rewrite (H0 eq_refl) in E'. exists seps. auto.
Qed.

(** The wrapper keeps the fields of its input. *)
Lemma Fields_wrapText (text : string) :
  addressable text ->
  strings.Fields (wrapText text) = strings.Fields text.
Proof.
  intros Ha. destruct (wrapText_weave text Ha) as (seps & Hl & Hs & ->).
  apply Fields_weave; [apply Fields_tokens | assumption | assumption].
Qed.

(** *** Lines *)

Lemma prefix_single (a c : ascii) (x : string) :
  String.prefix (String a "") (String c x) = Ascii.eqb a c.
Proof.
  cbn [String.prefix]. destruct (ascii_dec a c) as [->|H].
  - rewrite Ascii.eqb_refl. now destruct x.
  - symmetry. now apply Ascii.eqb_neq.
Qed.

Lemma split_nil (cur : string) : strings.split_from nl 0 "" cur = [cur].
Proof. reflexivity. Qed.

Lemma split_nl (x cur : string) :
  strings.split_from nl 0 (nl ++ x) cur = cur :: strings.split_from nl 0 x "".
Proof. cbn. now destruct x. Qed.

(** Bytes other than LF extend the line being read. *)
Lemma split_line (p x cur : string) :
  mem LF p = false ->
  strings.split_from nl 0 (p ++ x) cur = strings.split_from nl 0 x (cur ++ p).
Proof.
  revert cur. induction p as [|c p IH]; intros cur H.
  - now rewrite append_nil_r.
  - cbn [mem] in H. apply orb_false_iff in H as [Hc Hp].
    change (String c p ++ x) with (String c (p ++ x)).
    cbn [strings.split_from]. unfold nl at 1.
    rewrite prefix_single, Hc, IH by assumption.
    now rewrite append_assoc.
Qed.

Lemma count_zero (p : string) : RuneCountInString p = 0 -> p = "".
Proof.
  unfold RuneCountInString. intros H. destruct p as [|c p]; [reflexivity|].
  rewrite range_cons in H. simpl List.length in H. lia.
Qed.

(** The count of a line extended by a space and a word. *)
Lemma count_extend (p w : string) :
  RuneCountInString (p ++ sp ++ w)
  = RuneCountInString p + 1 + RuneCountInString w.
Proof.
  unfold RuneCountInString, sp. simpl append.
  rewrite range_app by (apply ascii_space_starts, space_is_ascii_space).
  rewrite range_ascii by reflexivity.
  rewrite length_app. simpl List.length. lia.
Qed.

(** Every line that the loop produces is at most [displayWidth] runes
    wide or is a single word.  [p] is the line in progress. *)
Lemma emit_lines (all ws : list string) :
  Forall token ws -> incl ws all ->
  forall cur p,
    0 <= cur -> RuneCountInString p = cur -> mem LF p = false ->
    (displayWidth < cur -> In p all) ->
    forall l,
      In l (strings.split_from nl 0 (Builder.String_ (emit ws cur)) p) ->
      displayWidth < RuneCountInString l -> In l all.
Proof.
  unfold displayWidth.
  induction ws as [|w rest IH];
    intros Htok Hincl cur p Hcur Hp Hlf Hwide l Hl Hlong; subst cur.
  - simpl in Hl. destruct Hl as [<-|[]]. apply Hwide. lia.
  - inversion Htok as [|? ? Hw Hrest]; subst.
    assert (Hin : In w all) by (apply Hincl; now left).
    assert (Hincl' : incl rest all) by (intros x Hx; apply Hincl; now right).
    pose proof (token_count w Hw) as Hlen.
    pose proof (token_mem LF w LF_is_ascii_space Hw) as Hwlf.
    assert (Hafter : forall c q,
              0 < c -> RuneCountInString q = c -> mem LF q = false ->
              (70 < c -> In q all) ->
              In l (strings.split_from nl 0
                      (Builder.String_ (after w rest c)) q) ->
              In l all).
    { intros c q Hc Hq Hqlf Hqwide Hlq. unfold after in Hlq.
      destruct (sentence_end w rest).
      - rewrite String_cons in Hlq. simpl written in Hlq.
        rewrite split_nl in Hlq. destruct Hlq as [<-|Hlq].
        + apply Hqwide. lia.
        + apply (IH Hrest Hincl' 0 ""); auto; try lia.
      - apply (IH Hrest Hincl' c q); auto; lia. }
    destruct (emit_cons w rest (RuneCountInString p) Hcur)
      as [[E0 E] | [(Hpos & Hover & E) | (Hpos & Hfit & E)]];
      unfold displayWidth in *; rewrite E in Hl; clear E.
    + apply count_zero in E0. subst p.
      rewrite String_cons in Hl. simpl written in Hl.
      rewrite split_line in Hl by assumption. simpl append in Hl.
      apply (Hafter (RuneCountInString w) w); auto.
    + rewrite !String_cons in Hl. simpl written in Hl.
      rewrite split_nl, split_line in Hl by assumption. simpl append in Hl.
      destruct Hl as [<-|Hl]; [apply Hwide; lia|].
      apply (Hafter (RuneCountInString w) w); auto.
    + rewrite !String_cons in Hl. simpl written in Hl.
      rewrite <- append_assoc in Hl.
      rewrite split_line in Hl.
      * apply (Hafter (RuneCountInString p + 1 + RuneCountInString w)
                      (p ++ sp ++ w)); auto; try lia.
        -- apply count_extend.
        -- now rewrite !mem_app, Hlf, Hwlf.
      * now rewrite mem_app, Hwlf.
Qed.

(** *** The write after a word *)

Lemma hd_emit (ws : list string) (cur : Z) :
  hd_error (emit ws cur) <> Some SentenceBreak.
Proof.
  destruct ws as [|w rest]; simpl; [discriminate|].
  destruct ((displayWidth <? cur + RuneCountInString w + 1) && (0 <? cur));
    simpl; [discriminate|].
  destruct (0 <? cur); simpl; discriminate.
Qed.

Lemma sentence_at_0 (w : string) (rest : list string) :
  sentence_at contains_mark (w :: rest) 0 <-> sentence_end w rest = true.
Proof.
  unfold sentence_at, sentence_end, contains_mark. split.
  - intros (w0 & next & H0 & H1 & Hm & Hp & Hc).
    simpl in H0, H1. injection H0 as <-.
    destruct rest as [|n rest]; [discriminate|]. injection H1 as <-.
    now rewrite Hm, Hp, Hc.
  - destruct rest as [|n rest]; [discriminate|]. intros H.
    apply andb_true_iff in H as [H Hc]. apply andb_true_iff in H as [Hm Hp].
    apply negb_true_iff in Hp, Hc.
    exists w, n. simpl. auto.
Qed.

Lemma sentence_at_S (f : string -> bool) (w : string) (rest : list string)
      (i : nat) :
  sentence_at f (w :: rest) (S i) <-> sentence_at f rest i.
Proof. unfold sentence_at. simpl. reflexivity. Qed.

Lemma after_word_emit (ws : list string) :
  forall i cur,
    after_word i (emit ws cur) = Some SentenceBreak <->
    sentence_at contains_mark ws i.
Proof.
  induction ws as [|w rest IH]; intros i cur.
  - simpl. split; [discriminate|].
    intros (w & n & H & _). destruct i; discriminate.
  - assert (E : after_word i (emit (w :: rest) cur)
                = after_word i (Word w :: after w rest
                     ((if 0 <? (if (displayWidth <? cur + RuneCountInString w + 1)
                                     && (0 <? cur) then 0 else cur)
                       then (if (displayWidth <? cur + RuneCountInString w + 1)
                                  && (0 <? cur) then 0 else cur) + 1
                       else (if (displayWidth <? cur + RuneCountInString w + 1)
                                  && (0 <? cur) then 0 else cur))
                      + RuneCountInString w))).
    { unfold after. simpl emit.
      destruct ((displayWidth <? cur + RuneCountInString w + 1) && (0 <? cur));
        simpl; [reflexivity|].
      destruct (0 <? cur); reflexivity. }
    rewrite E. clear E. unfold after. destruct i as [|i].
    + rewrite sentence_at_0. simpl.
      destruct (sentence_end w rest); simpl; [tauto|].
      split; [|discriminate]. intros H. now apply hd_emit in H.
    + rewrite sentence_at_S. simpl.
      destruct (sentence_end w rest); simpl; apply IH.
Qed.

(** *** The shape of the output *)

Lemma last_byte_app (s t : string) :
  t <> "" -> last_byte (s ++ t) = last_byte t.
Proof.
  intros Ht. induction s as [|c s IH]; [reflexivity|].
  simpl append. simpl last_byte. rewrite IH.
  destruct (s ++ t) eqn:E; [|reflexivity].
  destruct s; simpl in E; [congruence | discriminate].
Qed.

Lemma last_byte_mem (s : string) (c : ascii) :
  last_byte s = Some c -> mem c s = true.
Proof.
  induction s as [|d s IH]; [discriminate|]. simpl last_byte.
  destruct s as [|e s].
  - intros [= ->]. cbn [mem]. now rewrite Ascii.eqb_refl.
  - intros H. cbn [mem] in *. rewrite (IH H). apply orb_true_r.
Qed.

Lemma weave_nonempty (ws seps : list string) :
  Forall token ws -> ws <> [] -> weave ws seps <> "".
Proof.
  intros Htok Hne. destruct ws as [|w ws]; [congruence|].
  inversion Htok as [|? ? [Hw _] _]; subst.
  simpl. destruct ws, seps; destruct w; simpl; congruence.
Qed.

(** Woven tokens end with the last byte of a token. *)
Lemma weave_last (ws seps : list string) :
  Forall token ws -> ws <> [] ->
  exists w, token w /\ last_byte (weave ws seps) = last_byte w.
Proof.
  revert seps. induction ws as [|w ws IH]; intros seps Htok Hne;
    [congruence|].
  inversion Htok as [|? ? Hw Hws]; subst.
  destruct ws as [|w' ws'].
  - exists w. simpl. auto.
  - destruct seps as [|s seps].
    + exists w. simpl. auto.
    + destruct (IH seps Hws ltac:(discriminate)) as (v & Hv & E).
      exists v. split; [assumption|].
      change (weave (w :: w' :: ws') (s :: seps))
        with (w ++ s ++ weave (w' :: ws') seps).
      rewrite <- append_assoc, last_byte_app; [exact E|].
      apply weave_nonempty; [assumption | discriminate].
Qed.

(** Woven tokens have no empty line. *)
Lemma weave_lines (ws : list string) :
  Forall token ws ->
  forall seps p,
    Forall separator seps -> (ws = [] -> p <> "") ->
    forall l, In l (strings.split_from nl 0 (weave ws seps) p) -> l <> "".
Proof.
  induction ws as [|w ws IH]; intros Htok seps p Hseps Hp l Hl.
  - simpl in Hl. destruct Hl as [<-|[]]. now apply Hp.
  - inversion Htok as [|? ? Hw Hws]; subst.
    pose proof (token_mem LF w LF_is_ascii_space Hw) as Hwlf.
    assert (Hpw : p ++ w <> "").
    { destruct Hw as [Hw _]. destruct p, w; simpl; congruence. }
    assert (Hone : In l (strings.split_from nl 0 w p) -> l <> "").
    { rewrite <- (append_nil_r w), split_line by assumption.
      simpl. intros [<-|[]]. exact Hpw. }
    destruct ws as [|w' ws']; [exact (Hone Hl)|].
    destruct seps as [|s seps]; [exact (Hone Hl)|].
    inversion Hseps as [|? ? Hs Hseps']; subst.
    change (weave (w :: w' :: ws') (s :: seps))
      with (w ++ s ++ weave (w' :: ws') seps) in Hl.
    rewrite split_line in Hl by assumption.
    destruct Hs as [-> | ->].
    + rewrite split_line in Hl by reflexivity.
      apply (IH Hws seps ((p ++ w) ++ sp)); auto. discriminate.
    + rewrite split_nl in Hl. destruct Hl as [<-|Hl]; [exact Hpw|].
      apply (IH Hws seps ""); auto. discriminate.
Qed.

End wrapFacts.

(* ===================================================================== *)
(** * The specification of the text wrapper *)
(* ===================================================================== *)

Section WrapperSpec.
Import Str StrFacts rangeFacts FieldsFacts wrapFacts.

(** C3, as the specification words it (a break after a token that ENDS in
    a sentence mark), does not hold: in ["a.b c"] the token ["a.b"] does
    not end in a mark, the line is far from full, and still the sentence
    break follows it. *)
Lemma sentence_rule_ends_in_mark_fails :
  strings.Fields "a.b c" = ["a.b"; "c"] /\
  ends_in_mark "a.b" = false /\
  after_word 0 (wrap_log "a.b c") = Some SentenceBreak /\
  wrapText "a.b c" = "a.b" ++ nl ++ "c" /\
  ~ sentence_rule ends_in_mark.
Proof.
  assert (E : strings.Fields "a.b c" = ["a.b"; "c"]) by (vm_compute; reflexivity).
  assert (L : after_word 0 (wrap_log "a.b c") = Some SentenceBreak)
    by (vm_compute; reflexivity).
  split; [exact E|]. split; [reflexivity|]. split; [exact L|].
  split; [vm_compute; reflexivity|].
  intros H. apply (H "a.b c" 0%nat) in L; [|reflexivity]. rewrite E in L.
  destruct L as (w & next & Hw & _ & Hm & _).
  simpl in Hw. injection Hw as <-. discriminate.
Qed.

(** C3, amended: the sentence break is written immediately after a token
    exactly when the token is followed by another one, CONTAINS one of the
    marks [.], [!], [?] (anywhere in it), and the next token starts neither
    with [)] nor with a comma; and ["Hello world. Bye!"] wraps to the two
    lines ["Hello world."] and ["Bye!"]. *)
Theorem sentence_boundary_rule :
  sentence_rule contains_mark /\
  wrapText "Hello world. Bye!" = "Hello world." ++ nl ++ "Bye!" /\
  lines (wrapText "Hello world. Bye!") = ["Hello world."; "Bye!"].
Proof.
  split; [|split; vm_compute; reflexivity].
  intros text i Ha. rewrite wrap_log_emit by assumption. apply after_word_emit.
Qed.

(** C3 at a concrete text: the sentence break follows ["world."]. *)
Lemma sentence_boundary_rule_witness :
  after_word 1 (wrap_log "Hello world. Bye!") = Some SentenceBreak.
Proof.
  destruct sentence_boundary_rule as [H _].
  apply (H "Hello world. Bye!" 1%nat); [reflexivity|].
  exists "world.", "Bye!".
  split; [vm_compute; reflexivity|]. split; [vm_compute; reflexivity|].
  split; [reflexivity|]. split; reflexivity.
Defined.

(** C4: a line of the output of [wrapText] that is longer than 70 runes is
    one token of the input, so a line of two or more tokens has at most 70
    runes, separators included; a text of a single word, however long, is
    returned as that word on one line; the empty string wraps to the empty
    string. *)
Theorem wrapText_width (text : string) :
  addressable text ->
  (forall l, In l (lines (wrapText text)) ->
             displayWidth < RuneCountInString l ->
             In l (strings.Fields text) /\ strings.Fields l = [l]) /\
  (forall l, In l (lines (wrapText text)) ->
             (2 <= List.length (strings.Fields l))%nat ->
             RuneCountInString l <= displayWidth) /\
  (forall w, strings.Fields text = [w] ->
             wrapText text = w /\ lines (wrapText text) = [w]) /\
  wrapText "" = "".
Proof.
  intros Ha.
  assert (Hlong : forall l, In l (lines (wrapText text)) ->
                            displayWidth < RuneCountInString l ->
                            In l (strings.Fields text) /\ strings.Fields l = [l]).
  { intros l Hl Hlong.
    assert (Hin : In l (strings.Fields text)).
    { unfold lines, strings.Split, wrapText in Hl.
      rewrite wrap_log_emit in Hl by assumption.
      apply (emit_lines (strings.Fields text) (strings.Fields text)
                        (Fields_tokens text) (incl_refl _) 0 ""); auto.
      - lia.
      - unfold displayWidth. lia. }
    split; [exact Hin|]. apply Fields_token.
    pose proof (Fields_tokens text) as Htok.
    rewrite Forall_forall in Htok. now apply Htok. }
  split; [exact Hlong|]. split; [|split].
  - intros l Hl Htwo.
    destruct (Z_le_gt_dec (RuneCountInString l) displayWidth) as [|Hgt]; [assumption|].
    destruct (Hlong l Hl ltac:(lia)) as [_ E]. rewrite E in Htwo. simpl in Htwo. lia.
  - intros w Hw.
    assert (Htok : token w).
    { pose proof (Fields_tokens text) as H. rewrite Hw in H. now inversion H. }
    assert (E : wrapText text = w).
    { unfold wrapText. rewrite wrap_log_emit, Hw by assumption. cbn.
      rewrite andb_false_r. cbn. apply append_nil_r. }
    split; [exact E|]. rewrite E. unfold lines, strings.Split.
    pose proof (split_line w "" ""
                  (token_mem LF w LF_is_ascii_space Htok)) as Hs.
    rewrite append_nil_r in Hs. exact Hs.
  - reflexivity.
Qed.

(** C4 at a concrete text: the line of 71 letters is a token of the input,
    and the line ["bb cc"] has at most 70 runes. *)
Lemma wrapText_width_witness :
  let long := "aaaaaaaaaaaaaaaaaaaaaaaaaaaaaaaaaaaaaaaaaaaaaaaaaaaaaaaaaaaaaaaaaaaaaaa" in
  let text := "bb  cc " ++ long in
  In long (strings.Fields text) /\ strings.Fields long = [long] /\
  RuneCountInString "bb cc" <= displayWidth /\
  wrapText long = long.
Proof.
  intros long text.
  destruct (wrapText_width text) as (H1 & H2 & _); [reflexivity|].
  destruct (wrapText_width long) as (_ & _ & H3 & _); [reflexivity|].
  destruct (H1 long) as [Ha Hb].
  - vm_compute. right. left. reflexivity.
  - vm_compute. reflexivity.
  - split; [exact Ha|]. split; [exact Hb|]. split.
    + apply H2.
      * vm_compute. left. reflexivity.
      * vm_compute. lia.
    + apply (H3 long). vm_compute. reflexivity.
Defined.

(** C5: wrapping a wrapped text again gives the same text, line breaks
    included. *)
Theorem wrapText_idempotent (text : string) :
  addressable text ->
  wrapText (wrapText text) = wrapText text.
Proof.
  intros Ha. unfold wrapText at 1 3. unfold wrap_log.
  now rewrite Fields_wrapText.
Qed.

(** C5 at a concrete text. *)
Lemma wrapText_idempotent_witness :
  wrapText (wrapText "Hello   world. Bye! (a.b) c")
  = wrapText "Hello   world. Bye! (a.b) c".
Proof.
  apply wrapText_idempotent. reflexivity.
Defined.

(** C10: splitting the output of [wrapText] on white space gives exactly
    the tokens of the input, in order; the output is these tokens with one
    space or one line break between each two, so it has no empty line and
    neither starts nor ends with a separator. *)
Theorem wrapText_preserves_tokens (text : string) :
  addressable text ->
  strings.Fields (wrapText text) = strings.Fields text /\
  (exists seps,
      List.length seps = pred (List.length (strings.Fields text)) /\
      Forall separator seps /\
      wrapText text = weave (strings.Fields text) seps) /\
  (wrapText text <> "" -> ~ In "" (lines (wrapText text))) /\
  (forall sep x, separator sep ->
                 wrapText text <> sep ++ x /\ wrapText text <> x ++ sep).
Proof.
  intros Ha. split; [now apply Fields_wrapText|].
  destruct (wrapText_weave text Ha) as (seps & Hl & Hs & E).
  pose proof (Fields_tokens text) as Htok.
  split; [exists seps; auto|]. rewrite E. split.
  - intros Hne Hin.
    apply (weave_lines (strings.Fields text) Htok seps "" Hs) in Hin; auto.
    intros Hnil. rewrite Hnil in Hne. now apply Hne.
  - intros sep x Hsep.
    assert (Hc : exists c, ascii_space c /\ sep = String c "").
    { destruct Hsep as [-> | ->].
      - exists " "%char. split; [apply space_is_ascii_space | reflexivity].
      - exists LF. split; [apply LF_is_ascii_space | reflexivity]. }
    destruct Hc as (c & Hc & ->).
    destruct (strings.Fields text) as [|w ws] eqn:Ef.
    + split; [discriminate|]. simpl. destruct x; discriminate.
    + split.
      * inversion Htok as [|? ? Hw _]; subst.
        pose proof (token_mem c w Hc Hw) as Hm.
        intros Heq.
        assert (Hhd : exists y, weave (w :: ws) seps = w ++ y).
        { destruct ws as [|w' ws'];
            [exists ""; simpl; now rewrite append_nil_r|].
          destruct seps as [|s seps'];
            [exists ""; simpl; now rewrite append_nil_r|].
          exists (s ++ weave (w' :: ws') seps'). reflexivity. }
        destruct Hhd as (y & Ey). rewrite Ey in Heq.
        destruct Hw as [Hw _]. destruct w as [|d w]; [congruence|].
        simpl in Heq. injection Heq as -> _.
        cbn [mem] in Hm. now rewrite Ascii.eqb_refl in Hm.
      * intros Heq.
        destruct (weave_last (w :: ws) seps Htok ltac:(discriminate))
          as (v & Hv & El).
        rewrite Heq, last_byte_app in El by discriminate. simpl in El.
        symmetry in El. apply last_byte_mem in El.
        now rewrite (token_mem c v Hc Hv) in El.
Qed.

(** C10 at a concrete text. *)
Lemma wrapText_preserves_tokens_witness :
  strings.Fields (wrapText "Hello   world. Bye!") = ["Hello"; "world."; "Bye!"] /\
  ~ In "" (lines (wrapText "Hello   world. Bye!")) /\
  wrapText "Hello   world. Bye!" <> sp ++ "Hello world. Bye!".
Proof.
  destruct (wrapText_preserves_tokens "Hello   world. Bye!")
    as (H1 & _ & H2 & H3); [reflexivity|].
  split; [rewrite H1; vm_compute; reflexivity|]. split.
  - apply H2. vm_compute. discriminate.
  - apply (H3 sp "Hello world. Bye!"). now left.
Defined.

End WrapperSpec.

(* ===================================================================== *)
(** * Facts about the entry point *)
(* ===================================================================== *)

Module mainFacts.
Import Str StrFacts.

Lemma valid_source_In (src : string) :
  valid_source src validSources = true <-> In src translators.
Proof.
  unfold validSources, translators, Siva, Purohit, Adi, San, Tej, Chinmay.
  simpl. split.
  - intros H.
    repeat match type of H with
           | (if String.eqb ?a ?b then _ else _) = true =>
             destruct (String.eqb_spec a b); [subst; tauto|]
           end.
    discriminate.
  - intros H.
    repeat (destruct H as [<-|H]; [reflexivity|]). destruct H.
Qed.

Lemma validate_valid (src : string) :
  In src translators -> validate src = ([], Done tt).
Proof.
  intros H. apply valid_source_In in H. unfold validate. now rewrite H.
Qed.

Lemma validate_invalid (src : string) :
  ~ In src translators ->
  validate src =
  ([Stdout ("Invalid translation source: " ++ src ++ nl);
    Stdout ("Valid sources: siva, purohit, adi, san, tej, chinmay" ++ nl)],
   Exited 1).
Proof.
  intros H. unfold validate.
  destruct (valid_source src validSources) eqn:E.
  - apply valid_source_In in E. contradiction.
  - reflexivity.
Qed.

Lemma load_ok (w : World) (data : string) (corpus : AllSlokas) :
  loads w data corpus ->
  load w = ([ReadEmbedded "gita.json"; Unmarshal data], Done corpus).
Proof.
  intros [Hr Hp]. unfold load, ReadFile, json_Unmarshal. cbn.
  rewrite Hr. cbn. rewrite Hp. reflexivity.
Qed.

(** The search loop finds the first verse with the numbers asked for. *)
Lemma search_found (slokas pre post : list Sloka.t) (s : Sloka.t)
      (c v : Z) (z : Sloka.t) (b : bool) :
  slokas = (pre ++ s :: post)%list -> numbered c v s ->
  (forall x, In x pre -> ~ numbered c v x) ->
  search slokas c v z b = (s, true).
Proof.
  intros -> [Hc Hv] Hpre. induction pre as [|x pre IH]; simpl.
  - now rewrite Hc, Hv, !Z.eqb_refl.
  - destruct ((Sloka.Chapter x =? c) && (Sloka.Verse x =? v)) eqn:E.
    + apply andb_true_iff in E as [E1 E2].
      apply Z.eqb_eq in E1, E2. exfalso. apply (Hpre x); [now left|].
      now split.
    + apply IH. intros y Hy. apply Hpre. now right.
Qed.

Lemma search_none (slokas : list Sloka.t) (c v : Z) (z : Sloka.t) (b : bool) :
  (forall x, In x slokas -> ~ numbered c v x) ->
  search slokas c v z b = (z, b).
Proof.
  induction slokas as [|x slokas IH]; intros H; simpl; [reflexivity|].
  destruct ((Sloka.Chapter x =? c) && (Sloka.Verse x =? v)) eqn:E.
  - apply andb_true_iff in E as [E1 E2]. apply Z.eqb_eq in E1, E2.
    exfalso. apply (H x); [now left | now split].
  - apply IH. intros y Hy. apply H. now right.
Qed.

Lemma chapter_info_done (chapters : list Chapter.t) (s : Sloka.t) :
  snd (chapter_info chapters s) = Done tt.
Proof.
  induction chapters as [|ch chapters IH]; simpl; [reflexivity|].
  destruct (Chapter.ChapterNumber ch =? Sloka.Chapter s); [|exact IH].
  destruct (String.eqb (Chapter.Translation ch) "");
    destruct (String.eqb (Lang.En (Chapter.Meaning ch)) ""); reflexivity.
Qed.

(** Without a chapter of the number of the verse, nothing is shown. *)
Lemma chapter_info_absent (chapters : list Chapter.t) (s : Sloka.t) :
  (forall ch, In ch chapters -> Chapter.ChapterNumber ch <> Sloka.Chapter s) ->
  chapter_info chapters s = ret tt.
Proof.
  induction chapters as [|ch chapters IH]; intros H; simpl; [reflexivity|].
  destruct (Z.eqb_spec (Chapter.ChapterNumber ch) (Sloka.Chapter s)) as [E|_].
  - exfalso. apply (H ch); [now left | exact E].
  - apply IH. intros ch' Hch. apply H. now right.
Qed.

Lemma print_lines_done (ls : list string) : snd (print_lines ls) = Done tt.
Proof.
  induction ls as [|l ls IH]; simpl; [reflexivity|].
  destruct (print_lines ls) as [t o]. simpl in IH. subst o.
  destruct (String.eqb (strings.TrimSpace l) ""); reflexivity.
Qed.

Lemma bind_done {A B : Type} (m : IO A) (k : A -> IO B) (t : list event) (a : A) :
  m = (t, Done a) -> bind m k = ((t ++ fst (k a))%list, snd (k a)).
Proof. intros ->. simpl. now destruct (k a). Qed.

Lemma bind_exited {A B : Type} (m : IO A) (k : A -> IO B) (t : list event) (c : Z) :
  m = (t, Exited c) -> bind m k = (t, Exited c).
Proof. now intros ->. Qed.

Lemma snd_bind_done {A B : Type} (m : IO A) (k : A -> IO B) (a : A) :
  snd m = Done a -> snd (bind m k) = snd (k a).
Proof. destruct m as [t o]. simpl. intros ->. now destruct (k a). Qed.

Lemma header_eq (s : Sloka.t) :
  header s = ([Stdout (header_line (Sloka.Chapter s) (Sloka.Verse s))], Done tt).
Proof. reflexivity. Qed.

Lemma print_translation_eq (text author : string) :
  print_translation text author = (commentary_block text author, Done tt).
Proof. reflexivity. Qed.

(** What is printed once the verse is selected. *)
Lemma present_eq (src : string) (inc : bool) (corpus : AllSlokas)
      (s : Sloka.t) :
  present src inc corpus s =
  ((Stdout nl ::
    fst (when inc (chapter_info (Chapters corpus) s)) ++
    Stdout (header_line (Sloka.Chapter s) (Sloka.Verse s)) ::
    fst (print_lines (strings.Split (Sloka.Slok s) nl)) ++
    Stdout nl ::
    fst (print_lines (strings.Split (Sloka.Transliteration s) ".")) ++
    Stdout nl ::
    commentary_block (fst (pick src s)) (snd (pick src s)) ++
    [Stdout nl])%list,
   Done tt).
Proof.
  unfold present.
  rewrite (bind_done (fmt.Println "") _ [Stdout nl] tt) by reflexivity.
  assert (Hc : snd (when inc (chapter_info (Chapters corpus) s)) = Done tt).
  { destruct inc; [apply chapter_info_done | reflexivity]. }
  destruct (when inc (chapter_info (Chapters corpus) s)) as [t1 o1].
  simpl in Hc. subst o1.
  pose proof (print_lines_done (strings.Split (Sloka.Slok s) nl)) as H2.
  destruct (print_lines (strings.Split (Sloka.Slok s) nl)) as [t2 o2].
  simpl in H2. subst o2.
  pose proof (print_lines_done (strings.Split (Sloka.Transliteration s) ".")) as H3.
  destruct (print_lines (strings.Split (Sloka.Transliteration s) ".")) as [t3 o3].
  simpl in H3. subst o3.
  destruct (pick src s) as [text author].
  rewrite header_eq, print_translation_eq.
  cbn [bind fst snd fmt.Println event_ commentary_block app].
  repeat rewrite <- List.app_assoc. reflexivity.
Qed.

Lemma main_selected (cl : CommandLine) (w : World) (data : string)
      (corpus : AllSlokas) (t : list event) (s : Sloka.t) :
  In (translation_of cl) translators ->
  selects cl w data corpus t s ->
  main cl w =
  (([ReadEmbedded "gita.json"; Unmarshal data] ++ t ++
    fst (present (translation_of cl) (chapter_info_of cl) corpus s))%list,
   Done tt).
Proof.
  intros Hv [Hl Hs]. unfold main.
  fold (translation_of cl) (chapter_info_of cl) (c_of cl) (v_of cl).
  rewrite (validate_valid _ Hv), (load_ok _ _ _ Hl). cbn [bind app].
  rewrite Hs. cbn [bind].
  pose proof (present_eq (translation_of cl) (chapter_info_of cl) corpus s)
    as Ep.
  destruct (present (translation_of cl) (chapter_info_of cl) corpus s)
    as [tp op].
  injection Ep as _ ->. reflexivity.
Qed.

Lemma main_stopped (cl : CommandLine) (w : World) (data : string)
      (corpus : AllSlokas) (t : list event) (c : Z) :
  In (translation_of cl) translators ->
  loads w data corpus ->
  select w (c_of cl) (v_of cl) corpus = (t, Exited c) ->
  main cl w = (([ReadEmbedded "gita.json"; Unmarshal data] ++ t)%list, Exited c).
Proof.
  intros Hv Hl Hs. unfold main.
  fold (translation_of cl) (chapter_info_of cl) (c_of cl) (v_of cl).
  rewrite (validate_valid _ Hv), (load_ok _ _ _ Hl). cbn [bind app].
  rewrite Hs. reflexivity.
Qed.

Lemma select_found (w : World) (corpus : AllSlokas) (c v : Z)
      (pre post : list Sloka.t) (s : Sloka.t) :
  0 < c -> 0 < v ->
  Slokas corpus = (pre ++ s :: post)%list -> numbered c v s ->
  (forall x, In x pre -> ~ numbered c v x) ->
  select w c v corpus = ([], Done s).
Proof.
  intros Hc Hv E Hs Hpre. unfold select.
  apply Z.ltb_lt in Hc, Hv. rewrite Hc, Hv. cbn [andb].
  now rewrite (search_found _ pre post s c v _ _ E Hs Hpre).
Qed.

Lemma select_not_found (w : World) (corpus : AllSlokas) (c v : Z) :
  0 < c -> 0 < v ->
  (forall x, In x (Slokas corpus) -> ~ numbered c v x) ->
  select w c v corpus =
  ([Stdout ("Chapter " ++ fmt.itoa c ++ ", Verse " ++ fmt.itoa v
            ++ " not found." ++ nl)], Exited 1).
Proof.
  intros Hc Hv H. unfold select.
  apply Z.ltb_lt in Hc, Hv. rewrite Hc, Hv. cbn [andb].
  now rewrite (search_none _ c v _ _ H).
Qed.

Lemma not_both (c v : Z) :
  ~ (0 < c /\ 0 < v) -> (0 <? c) && (0 <? v) = false.
Proof.
  intros H. destruct (0 <? c) eqn:Ec, (0 <? v) eqn:Ev; try reflexivity.
  apply Z.ltb_lt in Ec, Ev. tauto.
Qed.

Lemma select_fallback (w : World) (corpus : AllSlokas) (c v : Z) :
  ~ (0 < c /\ 0 < v) -> select w c v corpus = select w 0 0 corpus.
Proof. intros H. unfold select. now rewrite (not_both _ _ H). Qed.

Lemma select_empty (w : World) (corpus : AllSlokas) (c v : Z) :
  ~ (0 < c /\ 0 < v) -> Slokas corpus = [] ->
  select w c v corpus =
  ([Seed; Stdout ("No slokas found in the JSON data." ++ nl)], Exited 1).
Proof.
  intros H E. unfold select. rewrite (not_both _ _ H), E. reflexivity.
Qed.

Lemma select_random (w : World) (corpus : AllSlokas) (c v : Z) :
  ~ (0 < c /\ 0 < v) -> Slokas corpus <> [] -> Intn_contract w ->
  exists s,
    nth_error (Slokas corpus)
              (Z.to_nat (random w (Z.of_nat (List.length (Slokas corpus)))))
    = Some s /\
    select w c v corpus =
    ([Seed; Intn (Z.of_nat (List.length (Slokas corpus)))], Done s).
Proof.
  intros H Hne Hw. unfold select. rewrite (not_both _ _ H).
  set (n := Z.of_nat (List.length (Slokas corpus))).
  assert (Hn : 0 < n).
  { unfold n. destruct (Slokas corpus); [congruence | simpl; lia]. }
  destruct (Hw n Hn) as [H0 H1].
  destruct (nth_error (Slokas corpus) (Z.to_nat (random w n))) as [s|] eqn:E.
  - exists s. split; [reflexivity|].
    assert (En : (n =? 0) = false) by (apply Z.eqb_neq; lia).
    rewrite En. cbn [when bind rand.Seed rand.Intn event_ ret app].
    unfold index. assert (El : (random w n <? 0) = false) by (apply Z.ltb_ge; lia).
    rewrite El, E. reflexivity.
  - apply nth_error_None in E. unfold n in *. lia.
Qed.

End mainFacts.

(* ===================================================================== *)
(** * The specification of the entry point *)
(* ===================================================================== *)

Section MainSpec.
Import Str StrFacts mainFacts.

(** Read off what a trace wrote to the two streams. *)
Ltac streams :=
  unfold stdout, stderr;
  cbn [fst snd stdout_of stderr_of dataset_reads app];
  rewrite ?append_nil_r.

(** C1: with both [-c] and [-v] positive, the scan selects the first verse
    in load order with these chapter and verse numbers, and the header that
    is printed reads [Chapter c, Verse v]; if no verse has these numbers the
    program prints only the "not found" message and exits with code 1. *)
Theorem exact_lookup (cl : CommandLine) (w : World) (data : string)
        (corpus : AllSlokas) :
  In (translation_of cl) translators -> loads w data corpus ->
  0 < c_of cl -> 0 < v_of cl ->
  (forall pre s post,
      Slokas corpus = (pre ++ s :: post)%list ->
      numbered (c_of cl) (v_of cl) s ->
      (forall x, In x pre -> ~ numbered (c_of cl) (v_of cl) x) ->
      selects cl w data corpus [] s /\
      main cl w =
      (([ReadEmbedded "gita.json"; Unmarshal data] ++
        fst (present (translation_of cl) (chapter_info_of cl) corpus s))%list,
       Done tt) /\
      In (Stdout (header_line (c_of cl) (v_of cl))) (fst (main cl w)) /\
      exit_code (main cl w) = 0) /\
  ((forall s, In s (Slokas corpus) -> ~ numbered (c_of cl) (v_of cl) s) ->
   main cl w =
   ([ReadEmbedded "gita.json"; Unmarshal data;
     Stdout ("Chapter " ++ fmt.itoa (c_of cl) ++ ", Verse "
                        ++ fmt.itoa (v_of cl) ++ " not found." ++ nl)],
    Exited 1) /\
   stdout (main cl w) =
   "Chapter " ++ fmt.itoa (c_of cl) ++ ", Verse " ++ fmt.itoa (v_of cl)
              ++ " not found." ++ nl /\
   exit_code (main cl w) = 1).
Proof.
  intros Hsrc Hload Hc Hv. split.
  - intros pre s post E Hs Hpre.
    assert (Hsel : selects cl w data corpus [] s).
    { split; [exact Hload|]. now apply (select_found w corpus _ _ pre post). }
    pose proof (main_selected cl w data corpus [] s Hsrc Hsel) as Hm.
    split; [exact Hsel|]. split; [exact Hm|]. rewrite Hm. split; [|reflexivity].
    rewrite present_eq. destruct Hs as [<- <-]. cbn [fst app].
    right. right. right. apply in_or_app. right. now left.
  - intros Hnone.
    pose proof (select_not_found w corpus _ _ Hc Hv Hnone) as Hs.
    pose proof (main_stopped cl w data corpus _ _ Hsrc Hload Hs) as Hm.
    rewrite Hm. split; [reflexivity|]. split; [|reflexivity].
    streams. reflexivity.
Qed.

(** C1 on the sample corpus: [-c 2 -v 48] prints the header of that verse,
    and [-c 2 -v 49] is not found. *)
Lemma exact_lookup_witness :
  In (Stdout (header_line 2 48))
     (fst (main (mk_CommandLine None None (Some 2) (Some 48)) sample_world)) /\
  exit_code (main (mk_CommandLine None None (Some 2) (Some 49)) sample_world) = 1.
Proof.
  split.
  - destruct (exact_lookup (mk_CommandLine None None (Some 2) (Some 48))
                           sample_world "{}" sample_corpus) as [H _].
    + now left.
    + split; reflexivity.
    + reflexivity.
    + reflexivity.
    + destruct (H [bg_2_47] bg_2_48 []) as (_ & _ & Hin & _).
      * reflexivity.
      * split; reflexivity.
      * intros x [<-|[]] [_ Hx]. discriminate.
      * exact Hin.
  - destruct (exact_lookup (mk_CommandLine None None (Some 2) (Some 49))
                           sample_world "{}" sample_corpus) as [_ H].
    + now left.
    + split; reflexivity.
    + reflexivity.
    + reflexivity.
    + apply H. intros s [<-|[<-|[]]] [_ Hx]; discriminate.
Defined.

(** C2: when [-c] and [-v] are not both positive the program behaves as
    with neither given: it exits with code 1 on a corpus without verses,
    and otherwise selects the verse at the index that [rand.Intn] draws in
    the range of the verse sequence, so the verse in the printed header is
    an element of the corpus. *)
Theorem random_fallback (cl : CommandLine) (w : World) :
  ~ (0 < c_of cl /\ 0 < v_of cl) ->
  main cl w = main (with_c_v cl None None) w /\
  forall data corpus,
    In (translation_of cl) translators -> loads w data corpus ->
    (Slokas corpus = [] ->
     main cl w =
     ([ReadEmbedded "gita.json"; Unmarshal data; Seed;
       Stdout ("No slokas found in the JSON data." ++ nl)], Exited 1) /\
     exit_code (main cl w) = 1) /\
    (Slokas corpus <> [] -> Intn_contract w ->
     exists s,
       nth_error (Slokas corpus)
                 (Z.to_nat (random w (Z.of_nat (List.length (Slokas corpus)))))
       = Some s /\
       In s (Slokas corpus) /\
       main cl w =
       (([ReadEmbedded "gita.json"; Unmarshal data; Seed;
          Intn (Z.of_nat (List.length (Slokas corpus)))] ++
         fst (present (translation_of cl) (chapter_info_of cl) corpus s))%list,
        Done tt) /\
       In (Stdout (header_line (Sloka.Chapter s) (Sloka.Verse s)))
          (fst (main cl w)) /\
       exit_code (main cl w) = 0).
Proof.
  intros Hnot. split.
  - unfold main. cbn [with_c_v arg_translation arg_chapter_info arg_c arg_v].
    fold (c_of cl) (v_of cl).
    destruct (validate (flag.String_ (arg_translation cl) "siva"))
      as [t1 [[]|c1|]]; cbn [bind]; try reflexivity.
    destruct (load w) as [t2 [corpus|c2|]]; cbn [bind]; try reflexivity.
    change (flag.Int None 0) with 0.
    now rewrite (select_fallback w corpus _ _ Hnot).
  - intros data corpus Hsrc Hload. split.
    + intros Hempty.
      pose proof (select_empty w corpus _ _ Hnot Hempty) as Hs.
      rewrite (main_stopped cl w data corpus _ _ Hsrc Hload Hs).
      split; reflexivity.
    + intros Hne Hw.
      destruct (select_random w corpus _ _ Hnot Hne Hw) as (s & Hnth & Hs).
      exists s. split; [exact Hnth|]. split; [eapply nth_error_In; exact Hnth|].
      assert (Hsel : selects cl w data corpus
                       [Seed; Intn (Z.of_nat (List.length (Slokas corpus)))] s)
        by (split; assumption).
      pose proof (main_selected cl w data corpus _ s Hsrc Hsel) as Hm.
      rewrite Hm. split; [reflexivity|]. split; [|reflexivity].
      rewrite present_eq. cbn [fst app].
      do 5 right. apply in_or_app. right. now left.
Qed.

(** C2 on the sample corpus: with [-c 2] alone the verse drawn is in the
    corpus. *)
Lemma random_fallback_witness :
  main (mk_CommandLine None None (Some 2) None) sample_world
  = main (mk_CommandLine None None None None) sample_world /\
  exists s, In s (Slokas sample_corpus) /\
            exit_code (main (mk_CommandLine None None (Some 2) None)
                            sample_world) = 0.
Proof.
  destruct (random_fallback (mk_CommandLine None None (Some 2) None) sample_world)
    as [H1 H2].
  - intros [_ H]. discriminate.
  - split; [exact H1|].
    destruct (H2 "{}" sample_corpus) as [_ H].
    + now left.
    + split; reflexivity.
    + destruct H as (s & _ & Hin & _ & _ & Hexit).
      * discriminate.
      * intros n Hn. cbn. apply Z.mod_pos_bound. exact Hn.
      * exists s. split; [exact Hin | exact Hexit].
Defined.

(** C6: a [-translation] value outside the six sources makes the program
    print the usage message with the valid options and exit with code 1,
    before the embedded dataset is read or parsed and without any verse
    output. *)
Theorem invalid_source_exits_early (cl : CommandLine) (w : World) :
  ~ In (translation_of cl) ["siva"; "purohit"; "adi"; "san"; "tej"; "chinmay"] ->
  main cl w =
  ([Stdout ("Invalid translation source: " ++ translation_of cl ++ nl);
    Stdout ("Valid sources: siva, purohit, adi, san, tej, chinmay" ++ nl)],
   Exited 1) /\
  exit_code (main cl w) = 1 /\
  existsb dataset_event (fst (main cl w)) = false.
Proof.
  intros H.
  assert (E : main cl w =
              ([Stdout ("Invalid translation source: " ++ translation_of cl ++ nl);
                Stdout ("Valid sources: siva, purohit, adi, san, tej, chinmay" ++ nl)],
               Exited 1)).
  { unfold main. fold (translation_of cl).
    now rewrite (validate_invalid _ H). }
  rewrite E. repeat split.
Qed.

(** C6 on the sample world, for [-translation latin]. *)
Lemma invalid_source_exits_early_witness :
  exit_code (main (mk_CommandLine (Some "latin") None None None) sample_world) = 1 /\
  existsb dataset_event
          (fst (main (mk_CommandLine (Some "latin") None None None) sample_world))
  = false.
Proof.
  destruct (invalid_source_exits_early
              (mk_CommandLine (Some "latin") None None None) sample_world)
    as (_ & H1 & H2).
  - cbn. intros H.
    repeat (destruct H as [H|H]; [discriminate|]). exact H.
  - split; [exact H1 | exact H2].
Defined.

(** C7, as the specification words it (the message goes to the standard
    error), does not hold: with [-translation latin] the standard error
    stays empty and the message is on the standard output. *)
Lemma error_report_stderr_fails :
  stderr (main (mk_CommandLine (Some "latin") None None None) sample_world) = "" /\
  stdout (main (mk_CommandLine (Some "latin") None None None) sample_world)
  = "Invalid translation source: latin" ++ nl
    ++ "Valid sources: siva, purohit, adi, san, tej, chinmay" ++ nl /\
  ~ error_report stderr.
Proof.
  split; [reflexivity|]. split; [reflexivity|].
  intros H.
  assert (R : raises (mk_CommandLine (Some "latin") None None None) sample_world
                     InvalidTranslatorSource
                     ("Invalid translation source: latin" ++ nl
                      ++ "Valid sources: siva, purohit, adi, san, tej, chinmay"
                      ++ nl)).
  { apply (raises_invalid (mk_CommandLine (Some "latin") None None None)).
    cbn. intros G. repeat (destruct G as [G|G]; [discriminate|]). exact G. }
  destruct (H _ _ _ _ R) as [E _]. discriminate E.
Qed.

(** C7, amended: every error kind (invalid translator source, unreadable
    dataset, malformed dataset, empty corpus, verse not found) prints its
    message on the standard OUTPUT and nothing on the standard error, and
    ends the process with exit code 1; the dataset is read at most once and
    nothing is printed besides the message. *)
Theorem errors_reported_on_stdout :
  error_report stdout /\
  forall cl w k msg,
    raises cl w k msg ->
    stderr (main cl w) = "" /\ snd (main cl w) = Exited 1 /\
    (dataset_reads (fst (main cl w)) <= 1)%nat.
Proof.
  assert (H : forall cl w k msg,
             raises cl w k msg ->
             stdout (main cl w) = msg /\ stderr (main cl w) = "" /\
             snd (main cl w) = Exited 1 /\
             (dataset_reads (fst (main cl w)) <= 1)%nat).
  { intros cl w k msg Hr. destruct Hr as
        [Hsrc | err Hsrc Hread | data err Hsrc Hread Hparse
         | data corpus Hsrc Hload Hnot Hempty
         | data corpus Hsrc Hload Hc Hv Hnone].
    - assert (E : main cl w = (validate (translation_of cl))).
      { unfold main. fold (translation_of cl).
        now rewrite (validate_invalid _ Hsrc). }
      rewrite E, (validate_invalid _ Hsrc). streams.
      rewrite !append_assoc. repeat split. lia.
    - assert (E : main cl w =
                  ([ReadEmbedded "gita.json";
                    Stdout ("Error reading embedded data: " ++ err ++ nl)],
                   Exited 1)).
      { unfold main. fold (translation_of cl).
        rewrite (validate_valid _ Hsrc). unfold load, ReadFile. cbn.
        rewrite Hread. reflexivity. }
      rewrite E. streams. repeat split. lia.
    - assert (E : main cl w =
                  ([ReadEmbedded "gita.json"; Unmarshal data;
                    Stdout ("Error parsing JSON: " ++ err ++ nl)],
                   Exited 1)).
      { unfold main. fold (translation_of cl).
        rewrite (validate_valid _ Hsrc). unfold load, ReadFile, json_Unmarshal.
        cbn. rewrite Hread. cbn. rewrite Hparse. reflexivity. }
      rewrite E. streams. repeat split. lia.
    - rewrite (main_stopped cl w data corpus _ _ Hsrc Hload
                            (select_empty w corpus _ _ Hnot Hempty)).
      streams. repeat split. lia.
    - rewrite (main_stopped cl w data corpus _ _ Hsrc Hload
                            (select_not_found w corpus _ _ Hc Hv Hnone)).
      streams. repeat split. lia. }
  split.
  - intros cl w k msg Hr. destruct (H cl w k msg Hr) as (H1 & _ & H3 & _).
    split; [exact H1|]. unfold exit_code. now rewrite H3.
  - intros cl w k msg Hr. destruct (H cl w k msg Hr) as (_ & H2 & H3 & H4).
    auto.
Qed.

(** C7 on the sample world: a verse that is not in the corpus. *)
Lemma errors_reported_on_stdout_witness :
  stdout (main (mk_CommandLine None None (Some 2) (Some 49)) sample_world)
  = "Chapter 2, Verse 49 not found." ++ nl /\
  exit_code (main (mk_CommandLine None None (Some 2) (Some 49)) sample_world) = 1 /\
  stderr (main (mk_CommandLine None None (Some 2) (Some 49)) sample_world) = "".
Proof.
  assert (R : raises (mk_CommandLine None None (Some 2) (Some 49)) sample_world
                     VerseNotFound ("Chapter 2, Verse 49 not found." ++ nl)).
  { apply (raises_not_found (mk_CommandLine None None (Some 2) (Some 49))
                              sample_world "{}" sample_corpus).
    - now left.
    - split; reflexivity.
    - reflexivity.
    - reflexivity.
    - intros s [<-|[<-|[]]] [_ Hx]; discriminate. }
  destruct errors_reported_on_stdout as [H1 H2].
  destruct (H1 _ _ _ _ R) as [Ha Hb].
  destruct (H2 _ _ _ _ R) as [Hc _].
  split; [exact Ha|]. split; [exact Hb | exact Hc].
Defined.

(** C8: [-translation] defaults to [siva]; for each of the six sources and
    whichever verse is selected, the run ends with the commentary block of
    that translator: the wrapped text field ([et] for siva, purohit, san
    and adi, [ht] for tej, [hc] for chinmay), which has exactly the words
    of the field, then the author field in parentheses between the dim and
    reset codes, then a blank line. *)
Theorem translator_dispatch :
  (forall cl w,
      arg_translation cl = None ->
      translation_of cl = "siva" /\
      main cl w = main (with_translation cl (Some "siva")) w) /\
  (forall cl w data corpus t s text author,
      selects cl w data corpus t s ->
      dispatch s (translation_of cl) text author ->
      exists before,
        fst (main cl w) =
        (before ++
         [Stdout (wrapText text ++ nl);
          Stdout (Dim ++ "(" ++ author ++ ")" ++ Reset ++ nl);
          Stdout nl])%list /\
        (addressable text ->
         strings.Fields (wrapText text) = strings.Fields text) /\
        exit_code (main cl w) = 0).
Proof.
  split.
  - intros cl w H. unfold translation_of, main. cbn. rewrite H. auto.
  - intros cl w data corpus t s text author Hsel Hd.
    assert (Hsrc : In (translation_of cl) translators).
    { destruct Hd; simpl; tauto. }
    assert (Hp : pick (translation_of cl) s = (text, author)).
    { destruct Hd; reflexivity. }
    rewrite (main_selected cl w data corpus t s Hsrc Hsel), present_eq.
    rewrite Hp. cbn [fst snd].
    exists (([ReadEmbedded "gita.json"; Unmarshal data] ++ t ++
             Stdout nl ::
             fst (when (chapter_info_of cl) (chapter_info (Chapters corpus) s)) ++
             Stdout (header_line (Sloka.Chapter s) (Sloka.Verse s)) ::
             fst (print_lines (strings.Split (Sloka.Slok s) nl)) ++
             Stdout nl ::
             fst (print_lines (strings.Split (Sloka.Transliteration s) ".")) ++
             [Stdout nl])%list).
    split; [|split; [apply wrapFacts.Fields_wrapText | reflexivity]].
    unfold commentary_block.
    repeat (rewrite <- List.app_assoc; cbn [app]).
    reflexivity.
Qed.

(** C8 on the sample corpus: [-translation tej -c 2 -v 47]. *)
Lemma translator_dispatch_witness :
  exists before,
    fst (main (mk_CommandLine (Some "tej") None (Some 2) (Some 47)) sample_world)
    = (before ++
       [Stdout ("karm karne mein hi tera adhikar hai" ++ nl);
        Stdout (Dim ++ "(Swami Tejomayananda)" ++ Reset ++ nl);
        Stdout nl])%list.
Proof.
  destruct translator_dispatch as [_ H].
  destruct (H (mk_CommandLine (Some "tej") None (Some 2) (Some 47)) sample_world
              "{}" sample_corpus [] bg_2_47 _ _
              ltac:(split; [split; reflexivity | reflexivity])
              (dispatch_tej bg_2_47))
    as (before & E & _).
  exists before. exact E.
Defined.

(** C9: with [-chapter-info] set and no chapter of the number of the
    selected verse, the run is the same, event for event, as without the
    flag, and it ends with exit code 0. *)
Theorem chapter_info_frame (cl : CommandLine) (w : World) (data : string)
        (corpus : AllSlokas) (t : list event) (s : Sloka.t) :
  In (translation_of cl) translators ->
  selects cl w data corpus t s ->
  (forall ch, In ch (Chapters corpus) ->
              Chapter.ChapterNumber ch <> Sloka.Chapter s) ->
  main (with_chapter_info cl (Some true)) w
  = main (with_chapter_info cl (Some false)) w /\
  main (with_chapter_info cl (Some true)) w
  = main (with_chapter_info cl None) w /\
  exit_code (main (with_chapter_info cl (Some true)) w) = 0.
Proof.
  intros Hsrc Hsel Habs.
  assert (E : forall b,
             main (with_chapter_info cl b) w =
             (([ReadEmbedded "gita.json"; Unmarshal data] ++ t ++
               fst (present (translation_of cl) false corpus s))%list, Done tt)).
  { intros b.
    rewrite (main_selected (with_chapter_info cl b) w data corpus t s Hsrc Hsel).
    rewrite !present_eq. cbn [fst].
    change (translation_of (with_chapter_info cl b)) with (translation_of cl).
    destruct (chapter_info_of (with_chapter_info cl b)); [|reflexivity].
    cbn [when]. now rewrite (chapter_info_absent _ _ Habs). }
  rewrite !E. repeat split.
Qed.

(** C9 on a corpus whose only chapter is chapter 3. *)
Lemma chapter_info_frame_witness :
  let w := world_of (mk_AllSlokas [chapter_3] [bg_2_47]) 0 in
  main (mk_CommandLine None (Some true) None None) w
  = main (mk_CommandLine None (Some false) None None) w.
Proof.
  intros w.
  destruct (chapter_info_frame (mk_CommandLine None None None None) w "{}"
              (mk_AllSlokas [chapter_3] [bg_2_47]) [Seed; Intn 1] bg_2_47)
    as (H & _).
  - now left.
  - split; [split; reflexivity | reflexivity].
  - intros ch [<-|[]]. discriminate.
  - exact H.
Defined.

End MainSpec.


(* ===================================================================== *)
(** * Facts about trimming and about the bytes of the fields *)
(* ===================================================================== *)

Module trimFacts.
Import Str StrFacts rangeFacts FieldsFacts.

Lemma trim_left_split (rs : list (Z * string)) :
  exists A, rs = (A ++ strings.trim_left rs)%list /\ forallb space A = true.
Proof.
  induction rs as [|[r bs] rs IH].
  - exists []. auto.
  - simpl. destruct (unicode.IsSpace r) eqn:E.
    + destruct IH as (A & HA & Hs). exists ((r, bs) :: A). split.
      * simpl. now rewrite <- HA.
      * simpl. unfold space at 1. simpl. now rewrite E.
    + exists []. auto.
Qed.

Lemma trim_left_head (rs : list (Z * string)) :
  match strings.trim_left rs with
  | [] => True
  | p :: _ => space p = false
  end.
Proof.
  induction rs as [|[r bs] rs IH]; simpl; [exact I|].
  destruct (unicode.IsSpace r) eqn:E; [exact IH | exact E].
Qed.

Lemma forallb_rev {A : Type} (f : A -> bool) (l : list A) :
  forallb f l = true -> forallb f (rev l) = true.
Proof.
  rewrite !forallb_forall. intros H x Hx. apply H. now apply in_rev.
Qed.

(** A string splits into leading spaces, what trimming keeps, and trailing
    spaces; what is kept starts with a rune that is not a space. *)
Lemma trimmed_split (rs : list (Z * string)) :
  exists A Z,
    rs = (A ++ trimmed rs ++ Z)%list /\
    forallb space A = true /\ forallb space Z = true /\
    match trimmed rs with
    | [] => True
    | p :: _ => space p = false
    end.
Proof.
  destruct (trim_left_split rs) as (A & HA & HsA).
  destruct (trim_left_split (rev (strings.trim_left rs))) as (B & HB & HsB).
  exists A, (rev B).
  assert (HT : strings.trim_left rs = (trimmed rs ++ rev B)%list).
  { unfold trimmed. rewrite <- rev_app_distr, <- HB. now rewrite rev_involutive. }
  split; [now rewrite <- HT|]. split; [exact HsA|].
  split; [now apply forallb_rev|].
  pose proof (trim_left_head rs) as Hh. rewrite HT in Hh.
  destruct (trimmed rs); [exact I | exact Hh].
Qed.

Lemma spans_leading (A rest : list (Z * string)) :
  forallb space A = true ->
  strings.spans unicode.IsSpace (A ++ rest)%list None
  = strings.spans unicode.IsSpace rest None.
Proof.
  induction A as [|[r bs] A IH]; intros H; [reflexivity|].
  simpl in H. apply andb_true_iff in H as [Hr HA]. unfold space in Hr.
  simpl in Hr. simpl. rewrite Hr. now apply IH.
Qed.

Lemma spans_spaces (Z : list (Z * string)) (start : option string) :
  forallb space Z = true ->
  strings.spans unicode.IsSpace Z start
  = match start with Some w => [w] | None => [] end.
Proof.
  revert start. induction Z as [|[r bs] Z IH]; intros start H; [reflexivity|].
  simpl in H. apply andb_true_iff in H as [Hr HZ]. unfold space in Hr.
  simpl in Hr. simpl. rewrite Hr.
  destruct start; now rewrite (IH None HZ).
Qed.

Lemma spans_trailing (rs Z : list (Z * string)) (start : option string) :
  forallb space Z = true ->
  strings.spans unicode.IsSpace (rs ++ Z)%list start
  = strings.spans unicode.IsSpace rs start.
Proof.
  intros HZ. revert start. induction rs as [|[r bs] rs IH]; intros start.
  - simpl. now apply spans_spaces.
  - simpl. destruct (unicode.IsSpace r); destruct start; now rewrite ?IH.
Qed.

Lemma spaces_start (Z : list (Z * string)) :
  walk Z -> forallb space Z = true -> starts_rune (cat (map snd Z)).
Proof.
  destruct Z as [|[r bs] Z]; intros Hw H; [exact I|].
  simpl in H. apply andb_true_iff in H as [Hr _].
  now apply walk_space_starts.
Qed.

(** The runes of the trimmed string are the trimmed runes. *)
Lemma range_TrimSpace (s : string) :
  range_string (strings.TrimSpace s) = trimmed (range_string s).
Proof.
  unfold strings.TrimSpace. fold (trimmed (range_string s)).
  destruct (trimmed_split (range_string s)) as (A & Z & E & _ & HZ & _).
  pose proof (walk_range s) as Hw. rewrite E in Hw.
  apply walk_app_r in Hw. pose proof (walk_app_r _ _ Hw) as HwZ.
  apply (walk_app_l _ Z Hw). now apply spaces_start.
Qed.

(** Trimming keeps the fields. *)
Lemma Fields_TrimSpace (s : string) :
  strings.Fields (strings.TrimSpace s) = strings.Fields s.
Proof.
  unfold strings.Fields, strings.FieldsFunc. rewrite range_TrimSpace.
  destruct (trimmed_split (range_string s)) as (A & Z & E & HA & HZ & _).
  rewrite E at 2. rewrite spans_leading by assumption.
  now rewrite spans_trailing.
Qed.

Lemma spans_started (rs : list (Z * string)) (w : string) :
  strings.spans unicode.IsSpace rs (Some w) <> [].
Proof.
  revert w. induction rs as [|[r bs] rs IH]; intros w; simpl; [discriminate|].
  destruct (unicode.IsSpace r); [discriminate | apply IH].
Qed.

(** The trimmed string is empty exactly when the string has no field. *)
Lemma TrimSpace_empty (s : string) :
  strings.TrimSpace s = "" <-> strings.Fields s = [].
Proof.
  rewrite <- (Fields_TrimSpace s). split.
  - intros ->. reflexivity.
  - intros H. unfold strings.Fields, strings.FieldsFunc in H.
    rewrite range_TrimSpace in H.
    destruct (trimmed_split (range_string s)) as (A & Z & _ & _ & _ & Hh).
    rewrite <- (range_cat (strings.TrimSpace s)), range_TrimSpace.
    destruct (trimmed (range_string s)) as [|[r bs] M]; [reflexivity|].
    unfold space in Hh. simpl in Hh. simpl in H. rewrite Hh in H.
    now apply spans_started in H.
Qed.

(** Every byte of a field is a byte of the string. *)
Lemma spans_mem (c : ascii) (rs : list (Z * string)) (start : option string)
      (w : string) :
  In w (strings.spans unicode.IsSpace rs start) -> mem c w = true ->
  match start with Some v => mem c v = true | None => False end \/
  mem c (cat (map snd rs)) = true.
Proof.
  revert start. induction rs as [|[r bs] rs IH]; intros start Hin Hc.
  - destruct start as [v|]; simpl in Hin; [|destruct Hin].
    destruct Hin as [->|[]]. now left.
  - simpl in Hin. change (cat (map snd ((r, bs) :: rs)))
      with (bs ++ cat (map snd rs)). rewrite mem_app.
    destruct (unicode.IsSpace r).
    + destruct start as [v|].
      * destruct Hin as [->|Hin]; [now left|].
        destruct (IH None Hin Hc) as [[]|H]. right. rewrite H. apply orb_true_r.
      * destruct (IH None Hin Hc) as [[]|H]. right. rewrite H. apply orb_true_r.
    + destruct start as [v|].
      * destruct (IH _ Hin Hc) as [H|H].
        -- rewrite mem_app in H. apply orb_true_iff in H as [H|H];
             [now left | right; now rewrite H].
        -- right. rewrite H. apply orb_true_r.
      * destruct (IH _ Hin Hc) as [H|H].
        -- right. now rewrite H.
        -- right. rewrite H. apply orb_true_r.
Qed.

Lemma Fields_mem (c : ascii) (s w : string) :
  In w (strings.Fields s) -> mem c w = true -> mem c s = true.
Proof.
  intros Hin Hc. destruct (spans_mem c _ None w Hin Hc) as [[]|H].
  now rewrite range_cat in H.
Qed.

(** The fields and the white space between them fit in the string. *)
Lemma spans_room (rs : list (Z * string)) (start : option string) :
  Forall chunk_ok rs ->
  (list_sum (map String.length (strings.spans unicode.IsSpace rs start))
   + List.length (strings.spans unicode.IsSpace rs start)
   <= match start with Some w => String.length w | None => 0 end
      + String.length (cat (map snd rs)) + 1)%nat.
Proof.
  revert start. induction rs as [|[r bs] rs IH]; intros start Hok.
  - destruct start; simpl; lia.
  - inversion Hok as [|? ? (c & cs & E & _) Hok']; subst. simpl in E. subst bs.
    change (cat (map snd ((r, String c cs) :: rs)))
      with (String c cs ++ cat (map snd rs)).
    rewrite length_append. simpl String.length. simpl strings.spans.
    destruct (unicode.IsSpace r).
    + destruct start as [w|].
      * specialize (IH None Hok'). cbv beta iota in IH.
        simpl. simpl in IH. lia.
      * specialize (IH None Hok'). cbv beta iota in IH. lia.
    + destruct start as [w|].
      * specialize (IH (Some (w ++ String c cs)) Hok'). cbv beta iota in IH.
        rewrite length_append in IH. simpl String.length in IH. lia.
      * specialize (IH (Some (String c cs)) Hok'). cbv beta iota in IH.
        simpl String.length in IH. lia.
Qed.

Lemma Fields_room (s : string) :
  (list_sum (map String.length (strings.Fields s))
   + List.length (strings.Fields s) <= String.length s + 1)%nat.
Proof.
  pose proof (spans_room (range_string s) None (range_chunks s)) as H.
  now rewrite range_cat in H.
Qed.

End trimFacts.

(* ===================================================================== *)
(** * Further facts about the text wrapper *)
(* ===================================================================== *)

Module wrapMore.
Import Str StrFacts rangeFacts FieldsFacts wrapFacts trimFacts.

Lemma words_of_app (l l' : list write) :
  words_of (l ++ l')%list = (words_of l ++ words_of l')%list.
Proof.
  induction l as [|x l IH]; [reflexivity|].
  destruct x; simpl; now rewrite IH.
Qed.

(** An iteration writes its word once, whatever the counter holds. *)
Lemma words_of_iter (st : wrap_state) (w : string) (rest : list string) :
  words_of (result (wrap_iter st w rest))
  = (words_of (result st) ++ [w])%list.
Proof.
  unfold wrap_iter, Builder.WriteString.
  destruct ((displayWidth <? int.add (int.add (current st) (RuneCountInString w)) 1)
            && (0 <? current st)); cbn [current result].
  - change (0 <? 0) with false. cbv iota. cbn [current result].
    destruct (sentence_end w rest); cbn [result];
      rewrite !words_of_app; simpl; now rewrite !List.app_nil_r.
  - destruct (0 <? current st); cbn [current result];
      destruct (sentence_end w rest); cbn [result];
        rewrite !words_of_app; simpl; now rewrite ?List.app_nil_r.
Qed.

Lemma words_of_loop (ws : list string) (st : wrap_state) :
  words_of (result (wrap_loop ws st)) = (words_of (result st) ++ ws)%list.
Proof.
  revert st. induction ws as [|w rest IH]; intros st; simpl.
  - now rewrite List.app_nil_r.
  - rewrite IH, words_of_iter, <- List.app_assoc. reflexivity.
Qed.

(** The words of the log are the fields of the text. *)
Lemma words_of_log (text : string) :
  words_of (wrap_log text) = strings.Fields text.
Proof. unfold wrap_log. now rewrite words_of_loop. Qed.

Lemma append_empty (s t : string) : s ++ t = "" -> s = "" /\ t = "".
Proof. destruct s; simpl; [auto | discriminate]. Qed.

Lemma String_empty (log : list write) :
  Builder.String_ log = "" -> Forall (fun w => w = "") (words_of log).
Proof.
  induction log as [|x log IH]; intros H; [constructor|].
  rewrite String_cons in H. apply append_empty in H as [Hx Hl].
  destruct x; simpl in *; try discriminate. constructor; auto.
Qed.

(** A text with a word does not wrap to the empty string. *)
Lemma wrapText_nonempty (text : string) :
  strings.Fields text <> [] -> wrapText text <> "".
Proof.
  intros Hne H. apply String_empty in H. rewrite words_of_log in H.
  pose proof (Fields_tokens text) as Htok.
  destruct (strings.Fields text) as [|w ws]; [congruence|].
  inversion H as [|? ? Hw _]; subst. inversion Htok as [|? ? [Hw' _] _].
  congruence.
Qed.

(** The wrapper does not see the white space at the ends of a text. *)
Lemma wrapText_TrimSpace (text : string) :
  wrapText (strings.TrimSpace text) = wrapText text.
Proof. unfold wrapText, wrap_log. now rewrite Fields_TrimSpace. Qed.

(** A byte of the output is a space, a line feed or a byte of a word. *)
Lemma String_mem (c : ascii) (log : list write) :
  mem c (Builder.String_ log) = true ->
  c = " "%char \/ c = LF \/
  exists w, In w (words_of log) /\ mem c w = true.
Proof.
  induction log as [|x log IH]; intros H; [discriminate|].
  rewrite String_cons, mem_app in H. apply orb_true_iff in H as [H|H].
  - destruct x; cbn [written sp nl mem] in H.
    + right. left. rewrite orb_false_r in H. now apply Ascii.eqb_eq in H.
    + left. rewrite orb_false_r in H. now apply Ascii.eqb_eq in H.
    + right. right. exists w. split; [now left | exact H].
    + right. left. rewrite orb_false_r in H. now apply Ascii.eqb_eq in H.
  - destruct (IH H) as [Hc|[Hc|(w & Hin & Hw)]]; auto.
    right. right. exists w. split; [|exact Hw].
    destruct x; simpl; auto.
Qed.

(** The length of woven tokens. *)
Lemma length_weave (ws seps : list string) :
  Forall separator seps -> List.length seps = pred (List.length ws) ->
  String.length (weave ws seps)
  = (list_sum (map String.length ws) + pred (List.length ws))%nat.
Proof.
  revert seps. induction ws as [|w ws IH]; intros seps Hs Hl; [reflexivity|].
  destruct ws as [|w' ws'].
  - simpl. lia.
  - destruct seps as [|s seps]; [discriminate|].
    inversion Hs as [|? ? Hsep Hs']; subst.
    change (weave (w :: w' :: ws') (s :: seps))
      with (w ++ s ++ weave (w' :: ws') seps).
    rewrite !length_append, (IH seps Hs') by (simpl in *; lia).
    assert (String.length s = 1%nat) by (destruct Hsep as [-> | ->]; reflexivity).
    simpl. lia.
Qed.

(** The count of words joined by spaces. *)
Lemma count_unwords (w w' : string) (ws : list string) :
  RuneCountInString (unwords (w :: w' :: ws))
  = RuneCountInString w + 1 + RuneCountInString (unwords (w' :: ws)).
Proof.
  change (unwords (w :: w' :: ws)) with (w ++ sp ++ unwords (w' :: ws)).
  apply count_extend.
Qed.

Lemma sentence_end_no_mark (w : string) (rest : list string) :
  contains_mark w = false -> sentence_end w rest = false.
Proof.
  unfold contains_mark, sentence_end. intros H.
  destruct rest; [reflexivity|]. now rewrite H.
Qed.

(** Words without marks that fit on the line in progress are written on
    it, after single spaces. *)
Lemma emit_one_line (ws : list string) :
  Forall token ws -> Forall (fun w => contains_mark w = false) ws ->
  ws <> [] ->
  forall cur,
    0 <= cur ->
    (if 0 <? cur then cur + 1 else 0) + RuneCountInString (unwords ws)
    <= displayWidth ->
    Builder.String_ (emit ws cur)
    = (if 0 <? cur then sp else "") ++ unwords ws.
Proof.
  unfold displayWidth.
  induction ws as [|w rest IH]; [congruence|].
  intros Htok Hmark _ cur Hcur Hfit.
  inversion Htok as [|? ? Hw Hrest]; subst.
  inversion Hmark as [|? ? Hm Hmrest]; subst.
  pose proof (token_count w Hw) as Hlen.
  pose proof (count_nonneg (unwords rest)) as Hrest0.
  assert (Hafter : forall c,
             0 < c ->
             c + (match rest with [] => 0 | _ => 1 + RuneCountInString (unwords rest) end)
             <= 70 ->
             Builder.String_ (Word w :: after w rest c) = unwords (w :: rest)).
  { intros c Hc Hroom. unfold after. rewrite (sentence_end_no_mark w rest Hm).
    rewrite String_cons. cbn [written].
    destruct rest as [|w' rest'].
    - cbn. apply append_nil_r.
    - rewrite (IH Hrest Hmrest ltac:(discriminate) c ltac:(lia)).
      + rewrite (proj2 (Z.ltb_lt 0 c) Hc). reflexivity.
      + rewrite (proj2 (Z.ltb_lt 0 c) Hc). lia. }
  assert (Hsplit : RuneCountInString (unwords (w :: rest))
                   = RuneCountInString w
                     + match rest with
                       | [] => 0
                       | _ => 1 + RuneCountInString (unwords rest)
                       end).
  { destruct rest as [|w' rest']; [simpl; lia|]. rewrite count_unwords. lia. }
  rewrite Hsplit in Hfit.
  destruct (emit_cons w rest cur Hcur)
    as [[-> E] | [(Hpos & Hover & E) | (Hpos & _ & E)]]; rewrite E.
  - change (0 <? 0) with false in *. cbv iota in *.
    change ("" ++ unwords (w :: rest)) with (unwords (w :: rest)).
    apply Hafter; [lia|]. destruct rest; lia.
  - unfold displayWidth in Hover.
    rewrite (proj2 (Z.ltb_lt 0 cur) Hpos) in Hfit.
    destruct rest; lia.
  - rewrite (proj2 (Z.ltb_lt 0 cur) Hpos) in *.
    rewrite String_cons. cbn [written]. f_equal.
    apply Hafter; [lia|]. destruct rest; lia.
Qed.

Lemma spans_app_space (rs rs' : list (Z * string)) (r : Z) (bs : string)
      (start : option string) :
  unicode.IsSpace r = true ->
  strings.spans unicode.IsSpace (rs ++ (r, bs) :: rs')%list start
  = (strings.spans unicode.IsSpace rs start
     ++ strings.spans unicode.IsSpace rs' None)%list.
Proof.
  intros Hr. revert start. induction rs as [|[r0 b0] rs IH]; intros start.
  - simpl. rewrite Hr. now destruct start.
  - simpl. destruct (unicode.IsSpace r0); destruct start; simpl;
      now rewrite IH.
Qed.

(** An ASCII space separates the fields on its two sides. *)
Lemma Fields_app_space (p x : string) (c : ascii) :
  ascii_space c ->
  strings.Fields (p ++ String c x)
  = (strings.Fields p ++ strings.Fields x)%list.
Proof.
  intros Hc. unfold strings.Fields, strings.FieldsFunc.
  rewrite range_app by (now apply ascii_space_starts).
  rewrite range_ascii by apply Hc.
  apply spans_app_space. apply Hc.
Qed.

Lemma sentence_end_head (w w' : string) (rest : list string) :
  sentence_end w (w' :: rest) = sentence_end w [w'].
Proof. reflexivity. Qed.

(** Every line break that the loop writes has a reason.  [p] is the line
    in progress; the first line of the result extends it. *)
Lemma emit_breaks (ws : list string) :
  Forall token ws ->
  forall cur p,
    0 <= cur -> RuneCountInString p = cur -> mem LF p = false ->
    exists x tl,
      strings.split_from nl 0 (Builder.String_ (emit ws cur)) p
      = (p ++ x) :: tl /\
      justified_breaks ((p ++ x) :: tl) /\
      (0 < cur -> x = "" \/ exists y, x = sp ++ y) /\
      (cur = 0 ->
       match ws with
       | [] => x = ""
       | w :: _ => x = w \/ exists y, x = w ++ sp ++ y
       end).
Proof.
  induction ws as [|w rest IH]; intros Htok cur p Hcur Hp Hlf.
  - exists "", []. simpl. rewrite append_nil_r. auto.
  - inversion Htok as [|? ? Hw Hrest]; subst.
    pose proof (token_count w Hw) as Hlen.
    pose proof (token_mem LF w LF_is_ascii_space Hw) as Hwlf.
    assert (Hhead : forall x, x = "" \/ (exists y, x = sp ++ y) ->
                              hd_error (strings.Fields (w ++ x)) = Some w).
    { intros x [-> | (y & ->)].
      - now rewrite append_nil_r, Fields_token.
      - change (w ++ sp ++ y) with (w ++ String " " y).
        now rewrite (Fields_cons w " " y Hw space_is_ascii_space). }
    assert (Hafter : forall c q,
               0 < c -> RuneCountInString q = c -> mem LF q = false ->
               last (strings.Fields q) "" = w ->
               exists x tl,
                 strings.split_from nl 0 (Builder.String_ (after w rest c)) q
                 = (q ++ x) :: tl /\
                 justified_breaks ((q ++ x) :: tl) /\
                 (x = "" \/ exists y, x = sp ++ y)).
    { intros c q Hc Hq Hqlf Hlast. unfold after.
      destruct (sentence_end w rest) eqn:Es.
      - destruct rest as [|w' rest']; [discriminate|].
        pose proof (Forall_inv Hrest) as Hw'. cbv beta in Hw'.
        destruct (IH Hrest 0 "" ltac:(lia) eq_refl eq_refl)
          as (x' & tl' & E & Hj & _ & Hx').
        specialize (Hx' eq_refl). cbv beta iota in Hx'.
        rewrite String_cons. cbn [written]. rewrite split_nl, E.
        exists "", (("" ++ x') :: tl'). rewrite append_nil_r.
        split; [reflexivity|]. split; [|now left].
        split; [|exact Hj].
        exists w'. split.
        + simpl append. destruct Hx' as [-> | (y & ->)].
          * now rewrite Fields_token.
          * change (w' ++ sp ++ y) with (w' ++ String " " y).
            now rewrite (Fields_cons w' " " y Hw' space_is_ascii_space).
        + right. rewrite Hlast, <- (sentence_end_head w w' rest'). exact Es.
      - destruct (IH Hrest c q ltac:(lia) Hq Hqlf) as (x & tl & E & Hj & Hx & _).
        exists x, tl. auto. }
    destruct (emit_cons w rest (RuneCountInString p) Hcur)
      as [[E0 E] | [(Hpos & Hover & E) | (Hpos & Hfit & E)]]; rewrite E; clear E.
    + apply count_zero in E0. subst p.
      rewrite String_cons. cbn [written].
      rewrite split_line by assumption. simpl append.
      destruct (Hafter (RuneCountInString w) w Hlen eq_refl Hwlf)
        as (x & tl & E & Hj & Hx).
      { now rewrite Fields_token. }
      exists (w ++ x), tl. simpl append. split; [exact E|]. split; [exact Hj|].
      assert (Hz : RuneCountInString "" = 0)
        by (unfold RuneCountInString; now rewrite range_nil).
      split; [intros H; rewrite Hz in H; lia|]. intros _.
      destruct Hx as [-> | (y & ->)];
        [left; apply append_nil_r | right; exists y; reflexivity].
    + rewrite !String_cons. cbn [written].
      rewrite split_nl, split_line by assumption. simpl append.
      destruct (Hafter (RuneCountInString w) w Hlen eq_refl Hwlf)
        as (x & tl & E & Hj & Hx).
      { now rewrite Fields_token. }
      exists "", ((w ++ x) :: tl). rewrite append_nil_r, E.
      split; [reflexivity|]. split.
      * split; [|exact Hj]. exists w. split; [now apply Hhead|].
        left. exact Hover.
      * split; [now left | intros H; lia].
    + rewrite !String_cons. cbn [written].
      rewrite <- append_assoc, split_line by (now rewrite mem_app, Hwlf).
      destruct (Hafter (RuneCountInString p + 1 + RuneCountInString w)
                       (p ++ sp ++ w) ltac:(lia) (count_extend p w))
        as (x & tl & E & Hj & Hx).
      { now rewrite !mem_app, Hlf, Hwlf. }
      { change (p ++ sp ++ w) with (p ++ String " " w).
        rewrite (Fields_app_space p w " " space_is_ascii_space).
        now rewrite (Fields_token w Hw), last_last. }
      exists (sp ++ w ++ x), tl.
      replace (p ++ sp ++ w ++ x) with ((p ++ sp ++ w) ++ x)
        by (now rewrite !append_assoc).
      split; [exact E|]. split; [exact Hj|].
      split; [right; eauto | intros H; lia].
Qed.

End wrapMore.

(* ===================================================================== *)
(** * Further properties of the text wrapper *)
(* ===================================================================== *)

Section WrapperMore.
Import Str StrFacts rangeFacts FieldsFacts wrapFacts trimFacts wrapMore.

(** X1: [wrapText] returns the empty string exactly for the texts without
    a word (empty or white space only), whatever their size. *)
Theorem wrapText_empty_iff (text : string) :
  wrapText text = "" <-> strings.Fields text = [].
Proof.
  split.
  - intros H. destruct (strings.Fields text) as [|w ws] eqn:E; [reflexivity|].
    exfalso. apply (wrapText_nonempty text); [rewrite E; discriminate | exact H].
  - intros H. unfold wrapText, wrap_log. now rewrite H.
Qed.

(** X2: the output of [wrapText] has at most as many bytes as its input:
    each run of white space is replaced by a single byte. *)
Theorem wrapText_no_longer (text : string) :
  addressable text ->
  (String.length (wrapText text) <= String.length text)%nat.
Proof.
  intros Ha. destruct (wrapText_weave text Ha) as (seps & Hl & Hs & ->).
  rewrite (length_weave _ _ Hs Hl).
  pose proof (Fields_room text) as Hroom.
  destruct (strings.Fields text); simpl in *; lia.
Qed.

(** X2 at a concrete text. *)
Lemma wrapText_no_longer_witness :
  (String.length (wrapText "  Hello   world.  Bye!  ")
   <= String.length "  Hello   world.  Bye!  ")%nat.
Proof.
  apply wrapText_no_longer. reflexivity.
Defined.

(** X3: a text whose words have no sentence mark and, joined by single
    spaces, take at most 70 runes is returned on one line: its words
    joined by single spaces. *)
Theorem wrapText_short_text (text : string) :
  addressable text ->
  Forall (fun w => contains_mark w = false) (strings.Fields text) ->
  RuneCountInString (unwords (strings.Fields text)) <= displayWidth ->
  wrapText text = unwords (strings.Fields text).
Proof.
  intros Ha Hmark Hfit. unfold wrapText. rewrite wrap_log_emit by assumption.
  pose proof (Fields_tokens text) as Htok.
  destruct (strings.Fields text) as [|w ws]; [reflexivity|].
  now rewrite (emit_one_line (w :: ws) Htok Hmark ltac:(discriminate) 0
                             ltac:(lia) Hfit).
Qed.

(** X3 at a concrete text. *)
Lemma wrapText_short_text_witness :
  wrapText ("  karmany   evadhikaras" ++ nl ++ "te ") = "karmany evadhikaras te".
Proof.
  rewrite wrapText_short_text.
  - vm_compute. reflexivity.
  - reflexivity.
  - vm_compute. repeat constructor.
  - vm_compute. discriminate.
Defined.

(** X4: every byte of the output of [wrapText] is a space, a line feed or
    a byte of the input, and of the ASCII white space only the space and
    the line feed occur in it: tabs, carriage returns, vertical tabs and
    form feeds are never written. *)
Theorem wrapText_bytes (text : string) (c : ascii) :
  mem c (wrapText text) = true ->
  (c = " "%char \/ c = LF \/ mem c text = true) /\
  (ascii_space c -> c = " "%char \/ c = LF).
Proof.
  intros H. apply String_mem in H. rewrite words_of_log in H.
  split.
  - destruct H as [H|[H|(w & Hin & Hw)]]; auto.
    right. right. now apply (Fields_mem c text w).
  - intros Hc. destruct H as [H|[H|(w & Hin & Hw)]]; auto.
    pose proof (Fields_tokens text) as Htok. rewrite Forall_forall in Htok.
    rewrite (token_mem c w Hc (Htok w Hin)) in Hw. discriminate.
Qed.

(** X4 at a concrete text: the tab of the input is not in the output. *)
Lemma wrapText_bytes_witness :
  let tab := ascii_of_nat 9 in
  mem tab ("a" ++ String tab "b") = true /\
  mem tab (wrapText ("a" ++ String tab "b")) = false.
Proof.
  intros tab. split; [reflexivity|].
  destruct (mem tab (wrapText ("a" ++ String tab "b"))) eqn:E; [|reflexivity].
  destruct (wrapText_bytes _ _ E) as [_ H].
  destruct H as [H|H]; [split; reflexivity | discriminate H | discriminate H].
Defined.

(** X5: no line break of [wrapText] is gratuitous: for each two
    consecutive lines of the output, the first word of the second line
    would not have fitted on the first one (with its separating space), or
    the last word of the first line contains a sentence mark and the first
    word of the second starts neither with [)] nor with a comma. *)
Theorem wrapText_breaks_justified (text : string) :
  addressable text -> justified_breaks (lines (wrapText text)).
Proof.
  intros Ha. unfold lines, strings.Split, wrapText.
  rewrite wrap_log_emit by assumption.
  destruct (emit_breaks (strings.Fields text) (Fields_tokens text) 0 ""
                        ltac:(lia) eq_refl eq_refl)
    as (x & tl & E & Hj & _).
  rewrite E. exact Hj.
Qed.

(** X5 at a concrete text: the break after ["world."] ends a sentence. *)
Lemma wrapText_breaks_justified_witness :
  lines (wrapText "Hello world. Bye!") = ["Hello world."; "Bye!"] /\
  justified "Hello world." "Bye!".
Proof.
  assert (E : lines (wrapText "Hello world. Bye!") = ["Hello world."; "Bye!"])
    by (vm_compute; reflexivity).
  split; [exact E|].
  pose proof (wrapText_breaks_justified "Hello world. Bye!" eq_refl) as H.
  rewrite E in H. exact (proj1 H).
Defined.

(** X6: whatever the size of the text, the words that [wrapText] writes
    to its builder are the fields of the text, each once and in their
    order: a wrap-around of the counter can only move a separator. *)
Theorem wrap_log_writes_fields (text : string) :
  words_of (wrap_log text) = strings.Fields text /\
  forall w, In (Word w) (wrap_log text) -> token w.
Proof.
  split; [apply words_of_log|].
  intros w Hin. pose proof (Fields_tokens text) as Htok.
  rewrite Forall_forall in Htok. apply Htok.
  rewrite <- words_of_log.
  induction (wrap_log text) as [|x l IH]; [destruct Hin|].
  destruct Hin as [->|Hin].
  - now left.
  - destruct x; cbn [words_of]; auto. right. auto.
Qed.

End WrapperMore.


(* ===================================================================== *)
(** * Further facts about the entry point *)
(* ===================================================================== *)

Module mainMore.
Import Str StrFacts FieldsFacts wrapFacts trimFacts wrapMore mainFacts.


(** A trace of writes to the standard output leaves the standard error
    empty and does not use the random source. *)
Lemma stdout_only (t : list event) :
  forallb is_stdout t = true ->
  stderr_of t = "" /\ existsb random_event t = false.
Proof.
  induction t as [|e t IH]; intros H; [auto|].
  simpl in H. apply andb_true_iff in H as [He Ht].
  destruct e; try discriminate. simpl. now apply IH.
Qed.

Lemma has_word_TrimSpace (l : string) :
  negb (String.eqb (strings.TrimSpace l) "") = has_word l.
Proof.
  unfold has_word. destruct (String.eqb_spec (strings.TrimSpace l) "") as [E|E].
  - apply TrimSpace_empty in E. now rewrite E.
  - destruct (strings.Fields l) eqn:F; [|reflexivity].
    exfalso. apply E. now apply TrimSpace_empty.
Qed.

(** The loops over the lines print the lines that have a word. *)
Lemma print_lines_eq (ls : list string) :
  print_lines ls = (map printed_line (filter has_word ls), Done tt).
Proof.
  induction ls as [|l ls IH]; [reflexivity|].
  cbn [print_lines filter]. rewrite IH, has_word_TrimSpace, wrapText_TrimSpace.
  destruct (has_word l); reflexivity.
Qed.

Lemma print_lines_stdout (ls : list string) :
  forallb is_stdout (fst (print_lines ls)) = true.
Proof.
  rewrite print_lines_eq. cbn [fst].
  induction (filter has_word ls); simpl; auto.
Qed.

Lemma chapter_block_stdout (ch : Chapter.t) :
  forallb is_stdout (chapter_block ch) = true.
Proof.
  unfold chapter_block.
  destruct (String.eqb (Chapter.Translation ch) "");
    destruct (String.eqb (Lang.En (Chapter.Meaning ch)) ""); reflexivity.
Qed.

(** The loop over the chapters prints the block of the first chapter with
    the number of the verse. *)
Lemma chapter_info_present (chapters pre post : list Chapter.t)
      (ch : Chapter.t) (s : Sloka.t) :
  chapters = (pre ++ ch :: post)%list ->
  Chapter.ChapterNumber ch = Sloka.Chapter s ->
  (forall x, In x pre -> Chapter.ChapterNumber x <> Sloka.Chapter s) ->
  chapter_info chapters s = (chapter_block ch, Done tt).
Proof.
  intros -> Hch Hpre. induction pre as [|x pre IH].
  - cbn [app chapter_info]. rewrite Hch, Z.eqb_refl. unfold chapter_block.
    rewrite Hch.
    destruct (String.eqb (Chapter.Translation ch) "");
      destruct (String.eqb (Lang.En (Chapter.Meaning ch)) ""); reflexivity.
  - cbn [app chapter_info].
    destruct (Z.eqb_spec (Chapter.ChapterNumber x) (Sloka.Chapter s)) as [E|_].
    + exfalso. apply (Hpre x); [now left | exact E].
    + apply IH. intros y Hy. apply Hpre. now right.
Qed.

Lemma chapters_cases (chapters : list Chapter.t) (n : Z) :
  (exists pre ch post,
      chapters = (pre ++ ch :: post)%list /\ Chapter.ChapterNumber ch = n /\
      forall x, In x pre -> Chapter.ChapterNumber x <> n) \/
  (forall x, In x chapters -> Chapter.ChapterNumber x <> n).
Proof.
  induction chapters as [|x chapters IH]; [right; intros ? []|].
  destruct (Z.eq_dec (Chapter.ChapterNumber x) n) as [E|E].
  - left. exists [], x, chapters.
    split; [reflexivity|]. split; [exact E|]. intros ? [].
  - destruct IH as [(pre & ch & post & -> & Hch & Hpre)|H].
    + left. exists (x :: pre), ch, post.
      split; [reflexivity|]. split; [exact Hch|].
      intros y [<-|Hy]; auto.
    + right. intros y [<-|Hy]; auto.
Qed.

Lemma chapter_info_stdout (chapters : list Chapter.t) (s : Sloka.t) :
  forallb is_stdout (fst (chapter_info chapters s)) = true.
Proof.
  destruct (chapters_cases chapters (Sloka.Chapter s))
    as [(pre & ch & post & E & Hch & Hpre)|H].
  - rewrite (chapter_info_present _ _ _ _ _ E Hch Hpre).
    apply chapter_block_stdout.
  - now rewrite (chapter_info_absent _ _ H).
Qed.

(** Once the verse is selected the program only writes to the standard
    output. *)
Lemma present_stdout (src : string) (inc : bool) (corpus : AllSlokas)
      (s : Sloka.t) :
  forallb is_stdout (fst (present src inc corpus s)) = true.
Proof.
  rewrite present_eq. cbn [fst forallb is_stdout andb].
  repeat (rewrite forallb_app; cbn [forallb is_stdout andb]).
  rewrite !print_lines_stdout.
  destruct inc; cbn [when]; [rewrite chapter_info_stdout|]; reflexivity.
Qed.

(** The search loop finds a first verse with the numbers or there is
    none. *)
Lemma search_cases (slokas : list Sloka.t) (c v : Z) :
  (exists pre s post,
      slokas = (pre ++ s :: post)%list /\ numbered c v s /\
      forall x, In x pre -> ~ numbered c v x) \/
  (forall x, In x slokas -> ~ numbered c v x).
Proof.
  induction slokas as [|x slokas IH]; [right; intros ? []|].
  destruct (Z.eq_dec (Sloka.Chapter x) c) as [Ec|Ec];
    [destruct (Z.eq_dec (Sloka.Verse x) v) as [Ev|Ev]|].
  - left. exists [], x, slokas.
    split; [reflexivity|]. split; [now split|]. intros ? [].
  - destruct IH as [(pre & s & post & -> & Hs & Hpre)|H].
    + left. exists (x :: pre), s, post.
      split; [reflexivity|]. split; [exact Hs|].
      intros y [<-|Hy]; [intros [_ H]; auto | now apply Hpre].
    + right. intros y [<-|Hy]; [intros [_ G]; auto | now apply H].
  - destruct IH as [(pre & s & post & -> & Hs & Hpre)|H].
    + left. exists (x :: pre), s, post.
      split; [reflexivity|]. split; [exact Hs|].
      intros y [<-|Hy]; [intros [H _]; auto | now apply Hpre].
    + right. intros y [<-|Hy]; [intros [G _]; auto | now apply H].
Qed.

(** The run of an error: the message on the standard output, then the
    exit with code 1. *)
Lemma raises_trace (cl : CommandLine) (w : World) (k : error_kind)
      (msg : string) :
  raises cl w k msg ->
  exists t,
    main cl w = (t, Exited 1) /\ stdout_of t = msg /\ stderr_of t = "" /\
    (0 < c_of cl -> 0 < v_of cl -> existsb random_event t = false).
Proof.
  intros Hr. destruct Hr as
      [Hsrc | err Hsrc Hread | data err Hsrc Hread Hparse
       | data corpus Hsrc Hload Hnot Hempty
       | data corpus Hsrc Hload Hc Hv Hnone].
  - eexists. split.
    + unfold main. fold (translation_of cl).
      rewrite (validate_invalid _ Hsrc). reflexivity.
    + cbn [stdout_of stderr_of existsb random_event orb].
      rewrite append_nil_r, !append_assoc. auto.
  - eexists. split.
    + unfold main. fold (translation_of cl).
      rewrite (validate_valid _ Hsrc). unfold load, ReadFile. cbn.
      rewrite Hread. reflexivity.
    + cbn [stdout_of stderr_of existsb random_event orb].
      rewrite append_nil_r. auto.
  - eexists. split.
    + unfold main. fold (translation_of cl).
      rewrite (validate_valid _ Hsrc). unfold load, ReadFile, json_Unmarshal.
      cbn. rewrite Hread. cbn. rewrite Hparse. reflexivity.
    + cbn [stdout_of stderr_of existsb random_event orb].
      rewrite append_nil_r. auto.
  - eexists. split.
    + apply (main_stopped cl w data corpus _ _ Hsrc Hload
                          (select_empty w corpus _ _ Hnot Hempty)).
    + cbn [app stdout_of stderr_of]. rewrite append_nil_r.
      repeat split. intros Hc Hv. tauto.
  - eexists. split.
    + apply (main_stopped cl w data corpus _ _ Hsrc Hload
                          (select_not_found w corpus _ _ Hc Hv Hnone)).
    + cbn [app stdout_of stderr_of existsb random_event orb].
      rewrite append_nil_r. auto.
Qed.

(** Every run ends in one of the five errors or selects a verse of the
    corpus; the random source is used exactly when [-c] and [-v] are not
    both positive. *)
Lemma main_cases (cl : CommandLine) (w : World) :
  (0 < c_of cl /\ 0 < v_of cl) \/ Intn_contract w ->
  (exists k msg, raises cl w k msg) \/
  (exists data corpus t s,
      In (translation_of cl) translators /\
      selects cl w data corpus t s /\ In s (Slokas corpus) /\
      ((0 < c_of cl /\ 0 < v_of cl) /\ t = [] \/
       ~ (0 < c_of cl /\ 0 < v_of cl) /\
       t = [Seed; Intn (Z.of_nat (List.length (Slokas corpus)))])).
Proof.
  intros Hcase.
  destruct (in_dec string_dec (translation_of cl) translators) as [Hsrc|Hsrc];
    [|left; eauto using raises_invalid].
  destruct (gitaFS w "gita.json") as [data|err] eqn:Hread;
    [|left; eauto using raises_unreadable].
  destruct (decode_json w data) as [corpus|err] eqn:Hparse;
    [|left; eauto using raises_malformed].
  assert (Hload : loads w data corpus) by (split; assumption).
  assert (Hrand : ~ (0 < c_of cl /\ 0 < v_of cl) ->
                  (exists k msg, raises cl w k msg) \/
                  (exists data corpus t s,
                      In (translation_of cl) translators /\
                      selects cl w data corpus t s /\ In s (Slokas corpus) /\
                      ((0 < c_of cl /\ 0 < v_of cl) /\ t = [] \/
                       ~ (0 < c_of cl /\ 0 < v_of cl) /\
                       t = [Seed; Intn (Z.of_nat (List.length (Slokas corpus)))]))).
  { intros Hnot. destruct Hcase as [Hboth|Hw]; [tauto|].
    assert (He : Slokas corpus = [] \/ Slokas corpus <> [])
      by (destruct (Slokas corpus); [now left | right; discriminate]).
    destruct He as [He|He].
    - left. exists EmptyCorpus. eexists.
      apply (raises_empty cl w data corpus); auto.
    - destruct (select_random w corpus _ _ Hnot He Hw) as (s & Hnth & Hsel).
      right.
      exists data, corpus,
             [Seed; Intn (Z.of_nat (List.length (Slokas corpus)))], s.
      split; [exact Hsrc|].
      split; [split; [exact Hload | exact Hsel]|].
      split; [eapply nth_error_In; exact Hnth|].
      right. auto. }
  destruct (Z_lt_dec 0 (c_of cl)) as [Hc|Hc];
    [destruct (Z_lt_dec 0 (v_of cl)) as [Hv|Hv]|].
  - destruct (search_cases (Slokas corpus) (c_of cl) (v_of cl))
      as [(pre & s & post & E & Hs & Hpre)|Hnone].
    + right. exists data, corpus, [], s. split; [exact Hsrc|].
      split; [split; [exact Hload|]; now apply (select_found w corpus _ _ pre post)|].
      split; [rewrite E; apply in_or_app; right; now left|].
      left. auto.
    + left. eauto using raises_not_found.
  - apply Hrand. tauto.
  - apply Hrand. tauto.
Qed.

(** The pieces of [Split] do not contain the separating byte. *)
Lemma split_pieces (a : ascii) (s cur p : string) :
  In p (strings.split_from (String a "") 0 s cur) ->
  mem a cur = false -> mem a p = false.
Proof.
  revert cur. induction s as [|c s IH]; intros cur Hin Hcur.
  - destruct Hin as [<-|[]]. exact Hcur.
  - cbn [strings.split_from] in Hin. rewrite prefix_single in Hin.
    destruct (Ascii.eqb a c) eqn:E.
    + destruct Hin as [<-|Hin]; [exact Hcur|]. now apply (IH "").
    + apply (IH _ Hin). rewrite mem_app, Hcur. cbn [mem]. now rewrite E.
Qed.

End mainMore.

(* ===================================================================== *)
(** * Further properties of the entry point *)
(* ===================================================================== *)

Section MainMore.
Import Str StrFacts FieldsFacts wrapFacts trimFacts wrapMore mainFacts mainMore.

(** X7: the loops of [main] over the Sanskrit lines and over the segments
    of the transliteration print, in order, exactly the lines that have a
    word, each as [wrapText] of the line itself (the trimming changes
    nothing but the test), so no empty line is printed by them. *)
Theorem line_loops_print_words (ls : list string) :
  print_lines ls = (map printed_line (filter has_word ls), Done tt) /\
  forall e, In e (fst (print_lines ls)) ->
            exists l, In l ls /\ e = Stdout (wrapText l ++ nl) /\
                      wrapText l = wrapText (strings.TrimSpace l) /\
                      wrapText l <> "".
Proof.
  split; [apply print_lines_eq|].
  intros e He. rewrite print_lines_eq in He. cbn [fst] in He.
  apply in_map_iff in He as (l & <- & Hl).
  apply filter_In in Hl as [Hin Hw].
  exists l. split; [exact Hin|]. split; [reflexivity|].
  split; [now rewrite wrapText_TrimSpace|].
  apply wrapText_nonempty. unfold has_word in Hw.
  destruct (strings.Fields l); [discriminate | discriminate].
Qed.

(** X7 on the Sanskrit text of a verse: the second line is printed without
    the spaces around it. *)
Lemma line_loops_print_words_witness :
  exists l,
    In l (strings.Split (Sloka.Slok bg_2_47) nl) /\
    Stdout ("ma phaleshu kadachana" ++ nl) = Stdout (wrapText l ++ nl).
Proof.
  destruct (line_loops_print_words (strings.Split (Sloka.Slok bg_2_47) nl))
    as [_ H].
  destruct (H (Stdout ("ma phaleshu kadachana" ++ nl))) as (l & Hin & E & _).
  - vm_compute. right. left. reflexivity.
  - exists l. split; [exact Hin | exact E].
Defined.

(** X8: the transliteration is split at the periods before it is printed,
    so no line printed for it contains a period. *)
Theorem transliteration_without_periods (s : Sloka.t) (e : event) :
  In e (fst (print_lines (strings.Split (Sloka.Transliteration s) "."))) ->
  exists x, e = Stdout x /\ mem "." x = false.
Proof.
  intros He. rewrite print_lines_eq in He. cbn [fst] in He.
  apply in_map_iff in He as (l & <- & Hl).
  apply filter_In in Hl as [Hin _].
  exists (wrapText l ++ nl). split; [reflexivity|].
  apply (split_pieces "." _ "" l) in Hin; [|reflexivity].
  rewrite mem_app, orb_false_r.
  destruct (mem "." (wrapText l)) eqn:E; [|reflexivity].
  apply String_mem in E. rewrite words_of_log in E.
  destruct E as [E|[E|(w & Hw & Hm)]]; try discriminate.
  now rewrite (Fields_mem "." l w Hw Hm) in Hin.
Qed.

(** X8 on a verse of the sample corpus. *)
Lemma transliteration_without_periods_witness :
  exists x, Stdout ("ma phaleshu kadachana" ++ nl) = Stdout x /\
            mem "." x = false.
Proof.
  apply (transliteration_without_periods bg_2_47).
  vm_compute. right. left. reflexivity.
Defined.

(** X9: with [-chapter-info] set and a chapter of the number of the
    selected verse in the corpus, the run is the run without the flag with
    one chapter block inserted after the leading blank line and before the
    header: the block of the first such chapter in load order. *)
Theorem chapter_info_shown (cl : CommandLine) (w : World) (data : string)
        (corpus : AllSlokas) (t : list event) (s : Sloka.t)
        (pre post : list Chapter.t) (ch : Chapter.t) :
  In (translation_of cl) translators ->
  selects cl w data corpus t s ->
  Chapters corpus = (pre ++ ch :: post)%list ->
  Chapter.ChapterNumber ch = Sloka.Chapter s ->
  (forall x, In x pre -> Chapter.ChapterNumber x <> Sloka.Chapter s) ->
  exists before after,
    fst (main (with_chapter_info cl (Some false)) w)
    = (before ++ [Stdout nl] ++ after)%list /\
    fst (main (with_chapter_info cl (Some true)) w)
    = (before ++ [Stdout nl] ++ chapter_block ch ++ after)%list /\
    hd_error after
    = Some (Stdout (header_line (Sloka.Chapter s) (Sloka.Verse s))) /\
    exit_code (main (with_chapter_info cl (Some true)) w) = 0.
Proof.
  intros Hsrc Hsel E Hch Hpre.
  exists ([ReadEmbedded "gita.json"; Unmarshal data] ++ t)%list.
  eexists.
  rewrite (main_selected (with_chapter_info cl (Some false)) w data corpus t s
                         Hsrc Hsel).
  rewrite (main_selected (with_chapter_info cl (Some true)) w data corpus t s
                         Hsrc Hsel).
  rewrite !present_eq. cbn [fst with_chapter_info chapter_info_of
                            arg_chapter_info flag.Bool flag.value when ret].
  rewrite (chapter_info_present _ _ _ _ _ E Hch Hpre). cbn [fst].
  split; [|split; [|split]].
  - rewrite <- List.app_assoc. cbn [app]. reflexivity.
  - rewrite <- !List.app_assoc. cbn [app]. reflexivity.
  - reflexivity.
  - reflexivity.
Qed.

(** X9 on the sample corpus. *)
Lemma chapter_info_shown_witness :
  In (Stdout (Bold ++ "Chapter 2: Sankhya Yoga" ++ Reset ++ nl))
     (fst (main (mk_CommandLine None (Some true) (Some 2) (Some 47))
                sample_world)).
Proof.
  destruct (chapter_info_shown (mk_CommandLine None None (Some 2) (Some 47))
              sample_world "{}" sample_corpus [] bg_2_47 [] [] chapter_2)
    as (before & after & _ & E & _).
  - now left.
  - split; [split; reflexivity | reflexivity].
  - reflexivity.
  - reflexivity.
  - intros x [].
  - change (with_chapter_info (mk_CommandLine None None (Some 2) (Some 47))
                              (Some true))
      with (mk_CommandLine None (Some true) (Some 2) (Some 47)) in E.
    rewrite E. apply in_or_app. right. right. left. reflexivity.
Defined.





(** X12: with both [-c] and [-v] positive the run does not depend on the
    random source: it never seeds or draws, and two worlds with the same
    dataset give the same run. *)
Theorem exact_lookup_is_deterministic (cl : CommandLine) (w w' : World) :
  0 < c_of cl -> 0 < v_of cl -> same_dataset w w' ->
  main cl w = main cl w' /\
  existsb random_event (fst (main cl w)) = false.
Proof.
  intros Hc Hv [Hfs Hjson]. split.
  - assert (Hload : load w = load w').
    { unfold load, ReadFile, json_Unmarshal. cbn. rewrite Hfs.
      destruct (gitaFS w' "gita.json") as [data|err]; [|reflexivity].
      cbn. now rewrite Hjson. }
    assert (Hsel : forall corpus,
               select w (c_of cl) (v_of cl) corpus
               = select w' (c_of cl) (v_of cl) corpus).
    { intros corpus. unfold select.
      now rewrite (proj2 (Z.ltb_lt _ _) Hc), (proj2 (Z.ltb_lt _ _) Hv). }
    unfold main. fold (c_of cl) (v_of cl). rewrite Hload.
    destruct (validate (flag.String_ (arg_translation cl) "siva"))
      as [t1 [[]|c1|]]; cbn [bind]; try reflexivity.
    destruct (load w') as [t2 [corpus|c2|]]; cbn [bind]; try reflexivity.
    now rewrite Hsel.
  - destruct (main_cases cl w (or_introl (conj Hc Hv)))
      as [(k & msg & Hr)|(data & corpus & t & s & Hsrc & Hsel & _ & Ht)].
    + destruct (raises_trace cl w k msg Hr) as (tr & E & _ & _ & Hrand).
      rewrite E. now apply Hrand.
    + rewrite (main_selected cl w data corpus t s Hsrc Hsel). cbn [fst].
      destruct Ht as [[_ ->]|[Hnot _]]; [|tauto].
      cbn [app existsb random_event orb].
      apply (stdout_only _ (present_stdout _ _ _ _)).
Qed.

(** X12 on the sample corpus with two random sources. *)
Lemma exact_lookup_is_deterministic_witness :
  main (mk_CommandLine None None (Some 2) (Some 48)) (world_of sample_corpus 0)
  = main (mk_CommandLine None None (Some 2) (Some 48)) (world_of sample_corpus 1).
Proof.
  apply exact_lookup_is_deterministic.
  - reflexivity.
  - reflexivity.
  - split; reflexivity.
Defined.

End MainMore.
